(** * fal_to_openai: the prompt composer and the streaming delta loop of server.ts

    A shallow embedding of [convertMessagesToFalPrompt] (server.ts, lines 78-199)
    and of the streaming branch of [handler] (server.ts, lines 332-392), and the
    properties of the two that the specification states.

    JavaScript strings are sequences of UTF-16 code units; [length], [substring],
    [trim] and [startsWith] all count in code units, so a string is a list of
    code units here. Lengths are integers ([Z]), as the arithmetic of the source
    ([Math.max(0, ...)], [+ 4]) is written on them. *)

From Stdlib Require Import ZArith List Bool Lia Ascii String.
Import ListNotations.
Open Scope Z_scope.
Set Warnings "-register-all".

(* ================================================================== *)
(** * Part I. JavaScript strings and values                            *)
(* ================================================================== *)

Definition code_unit : Type := N.

Definition jstring : Type := list code_unit.

(** An ASCII literal of the source, as code units. *)
Definition lit (s : string) : jstring :=
  List.map N_of_ascii (list_ascii_of_string s).

(** The line feed of the escapes [\n] in the source's literals. *)
Definition LF : code_unit := 10%N.

(** [s.length] *)
Definition len (s : jstring) : Z := Z.of_nat (List.length s).

(** [s === t] on strings *)
Fixpoint str_eqb (s t : jstring) : bool :=
  match s, t with
  | [], [] => true
  | c :: s', d :: t' => N.eqb c d && str_eqb s' t'
  | _, _ => false
  end.

(** [s.startsWith(p)] *)
Fixpoint startsWith (s p : jstring) {struct p} : bool :=
  match p with
  | [] => true
  | c :: p' =>
      match s with
      | [] => false
      | d :: s' => N.eqb c d && startsWith s' p'
      end
  end.

(** [s.substring(0, n)] for [0 <= n] *)
Definition substring_to (s : jstring) (n : Z) : jstring :=
  firstn (Z.to_nat n) s.

(** [s.substring(n)] for [0 <= n] *)
Definition substring_from (s : jstring) (n : Z) : jstring :=
  skipn (Z.to_nat n) s.

(** The code units [String.prototype.trim] strips: ECMAScript's WhiteSpace and
    LineTerminator (TAB, LF, VT, FF, CR, SP, NBSP, U+1680, U+2000..U+200A,
    U+2028, U+2029, U+202F, U+205F, U+3000, U+FEFF). *)
Definition is_white_space (c : code_unit) : bool :=
  ((9 <=? c) && (c <=? 13) || (c =? 32) || (c =? 160) || (c =? 5760)
   || (8192 <=? c) && (c <=? 8202) || (c =? 8232) || (c =? 8233)
   || (c =? 8239) || (c =? 8287) || (c =? 12288) || (c =? 65279))%N.

Fixpoint trimStart (s : jstring) : jstring :=
  match s with
  | [] => []
  | c :: s' => if is_white_space c then trimStart s' else s
  end.

Definition trimEnd (s : jstring) : jstring := rev (trimStart (rev s)).

(** [s.trim()] *)
Definition trim (s : jstring) : jstring := trimEnd (trimStart s).

(** [blocks.join("")] *)
Definition join (blocks : list jstring) : jstring := List.concat blocks.

(** The values a parsed JSON body or a backend event is made of. Numbers are
    integers here: the code only ever tests a number for truthiness. *)
Inductive jsval : Type :=
| JUndefined
| JNull
| JBool (b : bool)
| JNumber (n : Z)
| JString (s : jstring)
| JObject (props : list (jstring * jsval)).

(** Truthiness, as [if (v)], [v && ...] and [v ? a : b] test it. *)
Definition truthy (v : jsval) : bool :=
  match v with
  | JUndefined | JNull => false
  | JBool b => b
  | JNumber n => negb (n =? 0)
  | JString s => negb (str_eqb s [])
  | JObject _ => true
  end.

Fixpoint lookup (k : jstring) (props : list (jstring * jsval)) : jsval :=
  match props with
  | [] => JUndefined
  | (k', v) :: rest => if str_eqb k k' then v else lookup k rest
  end.

(** [v.k] on a value that is neither [null] nor [undefined]: an absent property,
    and any property of a primitive that the code asks for, is [undefined]. *)
Definition get (v : jsval) (k : jstring) : jsval :=
  match v with
  | JObject props => lookup k props
  | _ => JUndefined
  end.

(* ================================================================== *)
(** * Part II. The prompt composer: convertMessagesToFalPrompt         *)
(* ================================================================== *)

(** A chat message: the two properties the composer reads, [undefined] when
    the property is absent. (An entry of the array that is [null] or
    [undefined] makes line 85 throw; such entries are not messages.) *)
Record message : Type := { role : jsval; content : jsval }.

Definition PROMPT_LIMIT : Z := 4800.
Definition SYSTEM_PROMPT_LIMIT : Z := 4800.

(** The separator literal: two line feeds, seven dashes, thirteen CJK code
    units, five dashes, two line feeds. *)
Definition SEPARATOR : jstring :=
  [LF; LF] ++ lit "-------"
  ++ [19979; 38754; 26159; 27604; 36739; 26089; 20043; 21069; 30340; 23545;
      35805; 20869; 23481]%N
  ++ lit "-----" ++ [LF; LF].

(** Step 1 keeps two accumulators. *)
Record partition_state : Type := {
  fixed_system_prompt_content : jstring;
  conversation_message_blocks : list jstring
}.

(** Step 4 keeps the two block arrays, their lengths and the two flags. *)
Record fill_state : Type := {
  prompt_history_blocks : list jstring;
  system_prompt_history_blocks : list jstring;
  current_prompt_length : Z;
  current_system_history_length : Z;
  promptFull : bool;
  systemHistoryFull : bool
}.

(** The object the composer returns. *)
Record composed : Type := { system_prompt : jstring; prompt : jstring }.

Section Composer.

(** The built-in [String(v)] on a value that is not a string (a number, a
    boolean, an array, an object): the composer is modelled for any such
    conversion. *)
Variable String_of_other : jsval -> jstring.

Definition String_ (v : jsval) : jstring :=
  match v with
  | JString s => s
  | _ => String_of_other v
  end.

(** Line 85: [null] and [undefined] become the empty string. *)
Definition content_text (m : message) : jstring :=
  match content m with
  | JNull | JUndefined => []
  | v => String_ v
  end.

(** The [switch] on [message.role] compares with [===]. *)
Definition role_is (m : message) (r : string) : bool :=
  match role m with
  | JString s => str_eqb s (lit r)
  | _ => false
  end.

(** Lines 84-100, one turn of the loop, when it does not throw: the
    conversion of line 85 and the template of line 97 throw on an object that
    has no conversion to a text, which [message_throws] below decides. *)
Definition partition_step (st : partition_state) (m : message) : partition_state :=
  let content := content_text m in
  if role_is m "system" then
    {| fixed_system_prompt_content :=
         fixed_system_prompt_content st ++ lit "System: " ++ content ++ [LF; LF];
       conversation_message_blocks := conversation_message_blocks st |}
  else if role_is m "user" then
    {| fixed_system_prompt_content := fixed_system_prompt_content st;
       conversation_message_blocks :=
         conversation_message_blocks st ++ [lit "Human: " ++ content ++ [LF; LF]] |}
  else if role_is m "assistant" then
    {| fixed_system_prompt_content := fixed_system_prompt_content st;
       conversation_message_blocks :=
         conversation_message_blocks st ++ [lit "Assistant: " ++ content ++ [LF; LF]] |}
  else st.

Definition partition_messages (messages : list message) : partition_state :=
  fold_left partition_step messages
    {| fixed_system_prompt_content := []; conversation_message_blocks := [] |}.

(** Lines 103-109: the hard cut, then the trim. *)
Definition truncate_system (s : jstring) : jstring :=
  if SYSTEM_PROMPT_LIMIT <? len s then substring_to s SYSTEM_PROMPT_LIMIT else s.

Definition fixed_system (messages : list message) : jstring :=
  trim (truncate_system (fixed_system_prompt_content (partition_messages messages))).

(** Lines 112-116. *)
Definition space_occupied_by_fixed_system (fixed : jstring) : Z :=
  if 0 <? len fixed then len fixed + 4 else 0.

Definition remaining_system_limit (fixed : jstring) : Z :=
  Z.max 0 (SYSTEM_PROMPT_LIMIT - space_occupied_by_fixed_system fixed).

(** Lines 120-125. *)
Definition fill_init (remaining : Z) : fill_state :=
  {| prompt_history_blocks := [];
     system_prompt_history_blocks := [];
     current_prompt_length := 0;
     current_system_history_length := 0;
     promptFull := false;
     systemHistoryFull := remaining <=? 0 |}.

(** Lines 137-159: the body of the loop below the [break] test. A block that
    is placed ends the turn ([continue]); a block that does not fit the prompt
    marks the prompt full and falls through to the system slot. *)
Definition fill_body (remaining : Z) (message_block : jstring) (st : fill_state)
  : fill_state :=
  let block_length := len message_block in
  let try_system (st : fill_state) : fill_state :=
    if negb (systemHistoryFull st) then
      if current_system_history_length st + block_length <=? remaining then
        {| prompt_history_blocks := prompt_history_blocks st;
           system_prompt_history_blocks :=
             message_block :: system_prompt_history_blocks st;
           current_prompt_length := current_prompt_length st;
           current_system_history_length :=
             current_system_history_length st + block_length;
           promptFull := promptFull st;
           systemHistoryFull := systemHistoryFull st |}
      else
        {| prompt_history_blocks := prompt_history_blocks st;
           system_prompt_history_blocks := system_prompt_history_blocks st;
           current_prompt_length := current_prompt_length st;
           current_system_history_length := current_system_history_length st;
           promptFull := promptFull st;
           systemHistoryFull := true |}
    else st in
  if negb (promptFull st) then
    if current_prompt_length st + block_length <=? PROMPT_LIMIT then
      {| prompt_history_blocks := message_block :: prompt_history_blocks st;
         system_prompt_history_blocks := system_prompt_history_blocks st;
         current_prompt_length := current_prompt_length st + block_length;
         current_system_history_length := current_system_history_length st;
         promptFull := promptFull st;
         systemHistoryFull := systemHistoryFull st |}
    else
      try_system
        {| prompt_history_blocks := prompt_history_blocks st;
           system_prompt_history_blocks := system_prompt_history_blocks st;
           current_prompt_length := current_prompt_length st;
           current_system_history_length := current_system_history_length st;
           promptFull := true;
           systemHistoryFull := systemHistoryFull st |}
  else try_system st.

(** Lines 128-160: the loop runs from the last block down to the first, so it
    is a recursion on the blocks most recent first; it stops ([break]) at the
    first turn that finds both flags set. *)
Fixpoint fill_loop (remaining : Z) (newest_first : list jstring) (st : fill_state)
  : fill_state :=
  match newest_first with
  | [] => st
  | message_block :: older =>
      if promptFull st && systemHistoryFull st then st
      else fill_loop remaining older (fill_body remaining message_block st)
  end.

Definition fill (remaining : Z) (blocks : list jstring) : fill_state :=
  fill_loop remaining (rev blocks) (fill_init remaining).

(** Lines 172-187. *)
Definition assemble (fixed history : jstring) : jstring :=
  let hasFixedSystem := 0 <? len fixed in
  let hasSystemHistory := 0 <? len history in
  if hasFixedSystem && hasSystemHistory then fixed ++ SEPARATOR ++ history
  else if hasFixedSystem then fixed
  else if hasSystemHistory then history
  else [].

(** The state of step 4 for a message list (steps 1 to 4). *)
Definition filled (messages : list message) : fill_state :=
  fill (remaining_system_limit (fixed_system messages))
       (conversation_message_blocks (partition_messages messages)).

(** Line 163. *)
Definition system_prompt_history_content (messages : list message) : jstring :=
  trim (join (system_prompt_history_blocks (filled messages))).

(** Line 164. *)
Definition final_prompt (messages : list message) : jstring :=
  trim (join (prompt_history_blocks (filled messages))).

Definition convertMessagesToFalPrompt (messages : list message) : composed :=
  {| system_prompt :=
       assemble (fixed_system messages) (system_prompt_history_content messages);
     prompt := final_prompt messages |}.

End Composer.

(* ================================================================== *)
(** * Part III. The streaming loop of handler                          *)
(* ================================================================== *)

(** The backend stream is the list of the events it delivers, and the response
    is the list of the frames written to it: the iterator and the writer are
    taken not to throw, so the [catch] branch (lines 394-411) is not part of
    the model.

    What the loop writes, one constructor per shape of frame. The [id] and
    [created] fields of a chunk are read off the clock and are left out; the
    other fields are kept. *)
Inductive frame : Type :=
| ContentChunk (model : jsval) (delta_content : jstring) (finish_reason : option jstring)
    (** lines 375-385: [delta: { content }], [finish_reason] ["stop"] or [null] *)
| ErrorChunk (model : jsval) (message_content : jstring)
    (** lines 344-358: [delta: {}], [finish_reason: "error"], [message.content] *)
| DoneFrame.
    (** line 390: [data: [DONE]] *)

(** The variable of the loop and the frames written so far. *)
Record stream_state : Type := {
  previousOutput : jstring;
  written : list frame
}.

(** How a turn of the loop ends: with the next event, or with [break]. *)
Inductive control : Type := Next | Break.

(** Line 338. *)
Definition currentOutput_of (event : jsval) : jstring :=
  if truthy event then
    match get event (lit "output") with
    | JString s => s
    | _ => []
    end
  else [].

(** Line 339. *)
Definition isPartial_of (event : jsval) : bool :=
  if truthy event then
    match get event (lit "partial") with
    | JBool b => b
    | _ => true
    end
  else true.

(** Line 340. *)
Definition errorInfo_of (event : jsval) : jsval :=
  if truthy event && truthy (get event (lit "error")) then get event (lit "error")
  else JNull.

(** Lines 363-371: the delta, and the tracked output as line 370 leaves it. *)
Definition compute_delta (previousOutput currentOutput : jstring) : jstring * jstring :=
  if startsWith currentOutput previousOutput then
    (substring_from currentOutput (len previousOutput), previousOutput)
  else if 0 <? len currentOutput then (currentOutput, [])
  else ([], previousOutput).

Section Stream.

(** The built-in [JSON.stringify]: the loop is modelled for any serialiser. *)
Variable JSON_stringify : jsval -> jstring.

(** The [model] of the request, copied into every chunk. *)
Variable model : jsval.

(** Lines 338-387: one turn of the [for await] loop. *)
Definition on_event (event : jsval) (st : stream_state) : stream_state * control :=
  let currentOutput := currentOutput_of event in
  let isPartial := isPartial_of event in
  let errorInfo := errorInfo_of event in
  if truthy errorInfo then
    ({| previousOutput := previousOutput st;
        written := written st ++
          [ErrorChunk model (lit "Fal Stream Error: " ++ JSON_stringify errorInfo)] |},
     Break)
  else
    let (deltaContent, _) := compute_delta (previousOutput st) currentOutput in
    ({| previousOutput := currentOutput;
        written :=
          if negb (str_eqb deltaContent []) || negb isPartial
          then written st ++
                 [ContentChunk model deltaContent
                    (if isPartial then None else Some (lit "stop"))]
          else written st |},
     Next).

(** Lines 337-388: the loop over the events the backend delivers; the second
    component is the events the loop never pulled. *)
Fixpoint for_await (events : list jsval) (st : stream_state)
  : stream_state * list jsval :=
  match events with
  | [] => (st, [])
  | event :: rest =>
      match on_event event st with
      | (st', Break) => (st', rest)
      | (st', Next) => for_await rest st'
      end
  end.

(** Lines 334-390: everything written for a stream that ends without an
    exception. *)
Definition stream_frames (events : list jsval) : list frame :=
  written (fst (for_await events {| previousOutput := []; written := [] |}))
  ++ [DoneFrame].

End Stream.

(* ================================================================== *)
(** * Part III bis. The models list, the key check and the routes       *)
(* ================================================================== *)

(** Lines 30-48. *)
Definition FAL_SUPPORTED_MODELS : list jstring :=
  List.map lit
    ["anthropic/claude-3.7-sonnet"; "anthropic/claude-3.5-sonnet";
     "anthropic/claude-3-5-haiku"; "anthropic/claude-3-haiku";
     "google/gemini-pro-1.5"; "google/gemini-flash-1.5";
     "google/gemini-flash-1.5-8b"; "google/gemini-2.0-flash-001";
     "meta-llama/llama-3.2-1b-instruct"; "meta-llama/llama-3.2-3b-instruct";
     "meta-llama/llama-3.1-8b-instruct"; "meta-llama/llama-3.1-70b-instruct";
     "openai/gpt-4o-mini"; "openai/gpt-4o"; "deepseek/deepseek-r1";
     "meta-llama/llama-4-maverick"; "meta-llama/llama-4-scout"]%string.

(** The separators of the two [split] calls. *)
Definition SLASH : code_unit := 47%N.
Definition SPACE : code_unit := 32%N.

(** [s.split(sep)] for a separator of one code unit: the pieces between the
    separators, one piece more than there are separators. *)
Fixpoint split (sep : code_unit) (s : jstring) : list jstring :=
  match s with
  | [] => [[]]
  | c :: s' =>
      if N.eqb c sep then [] :: split sep s'
      else match split sep s' with
           | piece :: pieces => (c :: piece) :: pieces
           | [] => [[c]]
           end
  end.

(** [s.includes(sep)] for a text of one code unit. *)
Definition includes (s : jstring) (sep : code_unit) : bool :=
  existsb (fun c => N.eqb c sep) s.

(** Lines 51-56. *)
Definition getOwner (modelId : jstring) : jstring :=
  if negb (str_eqb modelId []) && includes modelId SLASH
  then hd [] (split SLASH modelId)
  else lit "fal-ai".

(** [toLowerCase] on a code unit below 128. *)
Definition lower_ascii (c : code_unit) : code_unit :=
  if ((65 <=? c) && (c <=? 90))%N then (c + 32)%N else c.

(** One entry of the models list (line 229). *)
Record model_entry : Type := {
  entry_id : jstring;
  entry_object : jstring;
  entry_created : Z;
  entry_owned_by : jstring
}.

(** The [messages] property of a request body: an array of entries, an entry
    being [null] or [undefined] ([None]) or a message, or any value that is
    not an array. *)
Inductive messages_value : Type :=
| NotAnArray (v : jsval)
| AnArray (entries : list (option message)).

(** What line 248 reads of a parsed request body, [undefined] for a property
    that is absent. *)
Record chat_body : Type := {
  body_model : jsval;
  body_messages : messages_value;
  body_stream : jsval;
  body_reasoning : jsval
}.

(** What [handler] reads of a request: the method, the path of the URL, the
    [authorization] header ([None] when [headers.get] gives [null]) and the
    parsed body ([None] when [request.json()] rejects or gives [null], on
    which the destructuring of line 248 throws). *)
Record request : Type := {
  method : jstring;
  pathname : jstring;
  authorization : option jstring;
  json_body : option chat_body
}.

(** The [input] of the backend call (lines 267-272); [system_prompt] is a
    property of it only when the spread of line 270 adds it. *)
Record fal_input : Type := {
  input_model : jsval;
  input_prompt : jstring;
  input_system_prompt : option jstring;
  input_reasoning : bool
}.

(** How the backend's event iterator ends: by itself, or by throwing. *)
Inductive stream_end : Type :=
| EndOfStream
| Throws (details : jstring).

(** What the streaming branch writes: the frames of the loop, and the frame
    of the [catch] branch (lines 398-404) with the details of the exception. *)
Inductive sse : Type :=
| Frame (f : frame)
| ProxyErrorFrame (details : jstring).

(** The bodies of the responses. The [details] of the response of lines
    418-421 (the message of the exception, which the engine words) and the
    clock behind [created] and behind an [id] without [requestId] are left
    out. *)
Inductive response_body : Type :=
| TextBody (text : jstring)
| ErrorBody (error : jstring)
    (** [{ error }] *)
| InternalErrorBody
    (** [{ error: 'Internal Server Error in Proxy', details }] *)
| FalErrorBody (message : jstring)
    (** [{ object: "error", message, type: "fal_ai_error", param: null, code: null }] *)
| ModelsBody (data : list model_entry)
    (** [{ object: "list", data }] *)
| CompletionBody (requestId : option jsval) (model : jsval) (content : jsval)
    (fal_reasoning : option jsval)
    (** lines 298-311; [requestId] is [None] when the id is read off the clock *)
| StreamBody (frames : list sse)
| EmptyBody.

Record response : Type := {
  status : Z;
  headers : list (jstring * jstring);
  body : response_body
}.

Definition json_headers : list (jstring * jstring) :=
  [(lit "Content-Type", lit "application/json")].

Definition text_headers : list (jstring * jstring) :=
  [(lit "Content-Type", lit "text/plain")].

(** Lines 324-329. *)
Definition stream_headers : list (jstring * jstring) :=
  [(lit "Content-Type", lit "text/event-stream; charset=utf-8");
   (lit "Cache-Control", lit "no-cache");
   (lit "Connection", lit "keep-alive");
   (lit "Access-Control-Allow-Origin", lit "*")].

(** Lines 432-437. *)
Definition preflight_headers : list (jstring * jstring) :=
  [(lit "Access-Control-Allow-Origin", lit "*");
   (lit "Access-Control-Allow-Methods", lit "GET, POST, OPTIONS");
   (lit "Access-Control-Allow-Headers", lit "Content-Type, Authorization");
   (lit "Access-Control-Max-Age", lit "86400")].

(** Lines 228-230. *)
Definition modelsData : list model_entry :=
  List.map (fun modelId => {| entry_id := modelId;
                              entry_object := lit "model";
                              entry_created := 1700000000;
                              entry_owned_by := getOwner modelId |})
    FAL_SUPPORTED_MODELS.

(** The messages of an array none of whose entries is [null] or [undefined];
    on any other array line 85 throws. *)
Fixpoint all_messages (entries : list (option message)) : option (list message) :=
  match entries with
  | [] => Some []
  | None :: _ => None
  | Some m :: rest =>
      match all_messages rest with
      | Some ms => Some (m :: ms)
      | None => None
      end
  end.

Section Server.

(** The built-ins the model is parametric in, as before. *)
Variable String_of_other : jsval -> jstring.

(** Whether the conversion of an object (or array) to a text throws, as it
    does for a parsed object with a [toString] property, which is no
    function. *)
Variable String_throws : jsval -> bool.

Variable JSON_stringify : jsval -> jstring.

(** [toLowerCase] on a text with a code unit of 128 or more: the Unicode
    tables are not modelled. *)
Variable toLowerCase_beyond_ascii : jstring -> jstring.

(** The environment variable of line 12; the process exits at line 21 unless
    it is a non-empty text. *)
Variable API_KEY : jstring.

(** The backend: [fal.subscribe] gives a result or throws ([None]);
    [fal.stream] gives the events its iterator delivers, and how it ends. *)
Variable subscribe : fal_input -> option jsval.
Variable stream : fal_input -> list jsval * stream_end.

(** Whether [String(v)] and a template [`${v}`] throw: never on a primitive. *)
Definition conversion_throws (v : jsval) : bool :=
  match v with
  | JObject _ => String_throws v
  | _ => false
  end.

(** Whether a turn of the loop of lines 84-100 throws: at line 85 on a content
    without a conversion (a content that is [null] or [undefined] is not
    converted), or at line 97 on a role that the [switch] has no case for and
    that has no conversion. *)
Definition message_throws (m : message) : bool :=
  match content m with
  | JNull | JUndefined => false
  | v => conversion_throws v
  end
  || negb (role_is m "system" || role_is m "user" || role_is m "assistant")
     && conversion_throws (role m).

(** Whether [convertMessagesToFalPrompt] throws: the loop of lines 84-100
    visits every message, and nothing after it throws. *)
Definition composer_throws (messages : list message) : bool :=
  existsb message_throws messages.

(** Lines 78-199 with their exceptions: [None] when the call throws. *)
Definition convertMessagesToFalPrompt_or_throw (messages : list message)
  : option composed :=
  if composer_throws messages then None
  else Some (convertMessagesToFalPrompt String_of_other messages).

(** [s.toLowerCase()] *)
Definition toLowerCase (s : jstring) : jstring :=
  if forallb (fun c => (c <? 128)%N) s then List.map lower_ascii s
  else toLowerCase_beyond_ascii s.

(** Lines 59-75, on the value of the [authorization] header. *)
Definition validateApiKey (authHeader : option jstring) : bool :=
  match authHeader with
  | None => false
  | Some h =>
      if str_eqb h [] then false
      else
        match split SPACE h with
        | [scheme; providedKey] =>
            if negb (str_eqb (toLowerCase scheme) (lit "bearer")) then false
            else str_eqb providedKey API_KEY
        | _ => false
        end
  end.

(** Lines 267-272. *)
Definition falInput_of (model reasoning : jsval) (converted : composed) : fal_input :=
  {| input_model := model;
     input_prompt := prompt converted;
     input_system_prompt :=
       if negb (str_eqb (system_prompt converted) []) then Some (system_prompt converted)
       else None;
     input_reasoning := truthy reasoning |}.

Definition internal_error : response :=
  {| status := 500; headers := json_headers; body := InternalErrorBody |}.

(** Lines 279-317: the response to a result of [fal.subscribe]. Reading
    [requestId] off a result that is [null] or [undefined] throws, and so does
    the template of line 299 on a [requestId] without a conversion to a
    text. *)
Definition completion_response (model result : jsval) : response :=
  if truthy result && truthy (get result (lit "error")) then
    {| status := 500; headers := json_headers;
       body := FalErrorBody (lit "Fal-ai error: "
                             ++ JSON_stringify (get result (lit "error"))) |}
  else
    match result with
    | JUndefined | JNull => internal_error
    | _ =>
        if truthy (get result (lit "requestId"))
           && conversion_throws (get result (lit "requestId"))
        then internal_error
        else
        {| status := 200; headers := json_headers;
           body :=
             CompletionBody
               (if truthy (get result (lit "requestId"))
                then Some (get result (lit "requestId")) else None)
               model
               (if truthy (get result (lit "output"))
                then get result (lit "output") else JString [])
               (if truthy (get result (lit "reasoning"))
                then Some (get result (lit "reasoning")) else None) |}
    end.

(** Lines 337-388 once more, keeping how the loop was left. *)
Fixpoint for_await_control (model : jsval) (events : list jsval) (st : stream_state)
  : stream_state * control :=
  match events with
  | [] => (st, Next)
  | event :: rest =>
      match on_event JSON_stringify model event st with
      | (st', Break) => (st', Break)
      | (st', Next) => for_await_control model rest st'
      end
  end.

(** Lines 332-412: everything written to the response, the writer taken not
    to throw. An exception of the iterator is only met when the loop was not
    left by [break]. *)
Definition stream_written (model : jsval) (upstream : list jsval * stream_end)
  : list sse :=
  let (events, ending) := upstream in
  let (st, how) :=
    for_await_control model events {| previousOutput := []; written := [] |} in
  match how, ending with
  | Next, Throws details =>
      List.map Frame (written st) ++ [ProxyErrorFrame details; Frame DoneFrame]
  | _, _ => List.map Frame (written st) ++ [Frame DoneFrame]
  end.

(** Lines 245-426: the chat completions route. The template of line 250
    converts [model] and [stream] to texts before anything is checked; an
    exception anywhere is answered by lines 416-425. *)
Definition chat_completions (parsed : option chat_body) : response :=
  match parsed with
  | None => internal_error
  | Some requestBody =>
      let model := body_model requestBody in
      if conversion_throws model || conversion_throws (body_stream requestBody)
      then internal_error
      else
      match body_messages requestBody with
      | NotAnArray _ =>
          {| status := 400; headers := json_headers;
             body := ErrorBody (lit "Missing or invalid parameters: model and messages array are required.") |}
      | AnArray entries =>
          if negb (truthy model) || (List.length entries =? 0)%nat then
            {| status := 400; headers := json_headers;
               body := ErrorBody (lit "Missing or invalid parameters: model and messages array are required.") |}
          else
            match all_messages entries with
            | None => internal_error
            | Some messages =>
              match convertMessagesToFalPrompt_or_throw messages with
              | None => internal_error
              | Some converted =>
                let falInput :=
                  falInput_of model (body_reasoning requestBody) converted in
                if negb (truthy (body_stream requestBody)) then
                  match subscribe falInput with
                  | None => internal_error
                  | Some result => completion_response model result
                  end
                else
                  {| status := 200; headers := stream_headers;
                     body := StreamBody (stream_written model (stream falInput)) |}
              end
            end
      end
  end.

(** Lines 202-446. *)
Definition handler (req : request) : response :=
  let path := pathname req in
  if str_eqb path (lit "/") && str_eqb (method req) (lit "GET") then
    {| status := 200; headers := text_headers;
       body := TextBody (lit "Fal OpenAI Proxy (System Top + Separator + Recency Strategy) is running.") |}
  else if (str_eqb path (lit "/v1/models") || str_eqb path (lit "/v1/chat/completions"))
          && negb (validateApiKey (authorization req)) then
    {| status := 401; headers := json_headers;
       body := ErrorBody (lit "Unauthorized: Invalid API Key") |}
  else if str_eqb path (lit "/v1/models") && str_eqb (method req) (lit "GET") then
    {| status := 200; headers := json_headers; body := ModelsBody modelsData |}
  else if str_eqb path (lit "/v1/chat/completions")
          && str_eqb (method req) (lit "POST") then
    chat_completions (json_body req)
  else if str_eqb (method req) (lit "OPTIONS") then
    {| status := 204; headers := preflight_headers; body := EmptyBody |}
  else
    {| status := 404; headers := text_headers; body := TextBody (lit "Not Found") |}.

End Server.

(* ================================================================== *)
(** * Part IV. The vocabulary of the properties                        *)
(* ================================================================== *)

(** The summed length of a run of blocks. *)
Definition total (blocks : list jstring) : Z :=
  fold_right (fun b acc => len b + acc) 0 blocks.

(** The [K] most recent of the blocks, in their original order. *)
Definition most_recent (K : nat) (blocks : list jstring) : list jstring :=
  skipn (List.length blocks - K) blocks.

(** The claim's words: the [K] most recent blocks fit within the combined
    prompt and system-history budgets, that is, their summed length is within
    the two budgets added together. *)
Definition fit_combined (remaining : Z) (blocks : list jstring) (K : nat) : Prop :=
  (K <= List.length blocks)%nat /\
  total (most_recent K blocks) <= PROMPT_LIMIT + remaining.

(** Only the [K] most recent fit within the combined budgets. *)
Definition only_most_recent_fit_combined (remaining : Z) (blocks : list jstring)
           (K : nat) : Prop :=
  fit_combined remaining blocks K
  /\ forall K' : nat, (K < K')%nat -> ~ fit_combined remaining blocks K'.

(** What the code decides by: the [K] most recent blocks can be placed whole,
    the more recent of them within the prompt budget and the older of them
    within the history budget of the system slot. *)
Definition placeable (remaining : Z) (blocks : list jstring) (K : nat) : Prop :=
  (K <= List.length blocks)%nat /\
  exists sys pr : list jstring,
    most_recent K blocks = sys ++ pr /\
    total sys <= remaining /\ total pr <= PROMPT_LIMIT.

(** Only the [K] most recent can be placed: [K] of them can, and no more
    than [K] can. *)
Definition only_most_recent_placeable (remaining : Z) (blocks : list jstring)
           (K : nat) : Prop :=
  placeable remaining blocks K
  /\ forall K' : nat, (K < K')%nat -> ~ placeable remaining blocks K'.

(** The longest run of blocks, most recent first, that a budget of [limit]
    holds on top of [cur], and the blocks after it. *)
Fixpoint take_fit (limit cur : Z) (newest_first : list jstring)
  : list jstring * list jstring :=
  match newest_first with
  | [] => ([], [])
  | b :: older =>
      if cur + len b <=? limit then
        let (taken, rest) := take_fit limit (cur + len b) older in (b :: taken, rest)
      else ([], newest_first)
  end.

(** Each snapshot extends the one before it. *)
Fixpoint extending (previous : jstring) (snapshots : list jstring) : Prop :=
  match snapshots with
  | [] => True
  | s :: later => startsWith s previous = true /\ extending s later
  end.

(** The delta texts of the content chunks among the frames, in order. *)
Definition delta_texts (frames : list frame) : list jstring :=
  flat_map (fun f => match f with
                     | ContentChunk _ d _ => [d]
                     | _ => []
                     end) frames.

Definition is_content_chunk (f : frame) : bool :=
  match f with
  | ContentChunk _ _ _ => true
  | _ => false
  end.

(** The output field of the event is absent, not a string, or the empty
    string. *)
Definition no_output_text (event : jsval) : Prop :=
  match get event (lit "output") with
  | JString s => s = []
  | _ => True
  end.

(** The event carries [partial: false]. *)
Definition flagged_final (event : jsval) : Prop :=
  truthy event = true /\ get event (lit "partial") = JBool false.

(** The event carries no error payload: [event.error] is absent or falsy. *)
Definition no_error (event : jsval) : Prop := truthy (errorInfo_of event) = false.

(** The [finish_reason] of the content chunk of an event. *)
Definition finish_reason_of (event : jsval) : option jstring :=
  if isPartial_of event then None else Some (lit "stop").

Section StreamVocabulary.

Variable JSON_stringify : jsval -> jstring.
Variable model : jsval.

(** The chunks one event adds when the tracked output is [previous]. *)
Definition chunks_of_event (event : jsval) (previous : jstring) : list frame :=
  written (fst (on_event JSON_stringify model event
                  {| previousOutput := previous; written := [] |})).

End StreamVocabulary.

Section ComposerVocabulary.

Variable String_of_other : jsval -> jstring.

(** The block a message adds to the conversation, if any. *)
Definition conversation_block (m : message) : list jstring :=
  if role_is m "system" then []
  else if role_is m "user" then
    [lit "Human: " ++ content_text String_of_other m ++ [LF; LF]]
  else if role_is m "assistant" then
    [lit "Assistant: " ++ content_text String_of_other m ++ [LF; LF]]
  else [].

(** The text a message adds to the fixed system text, if any. *)
Definition system_text (m : message) : jstring :=
  if role_is m "system" then
    lit "System: " ++ content_text String_of_other m ++ [LF; LF]
  else [].

(** A user or assistant message. *)
Definition is_conversation_message (m : message) : bool :=
  role_is m "user" || role_is m "assistant".

(** A message with one of the three roles the [switch] has a case for. *)
Definition has_supported_role (m : message) : bool :=
  role_is m "system" || role_is m "user" || role_is m "assistant".

(** The block of the most recent user or assistant message (the empty text
    when there is none). *)
Definition most_recent_block (messages : list message) : jstring :=
  last (conversation_message_blocks (partition_messages String_of_other messages)) [].

End ComposerVocabulary.

(** ** Sample inputs *)

(** A message with a string role and a string content. *)
Definition chat (r : string) (c : jstring) : message :=
  {| role := JString (lit r); content := JString c |}.

(** A conversion for the samples, whose contents are all strings. *)
Definition sample_String : jsval -> jstring := fun _ => [].

(** The example of the specification: one system message and three turns. *)
Definition sample_dialogue : list message :=
  [chat "system" (lit "A"); chat "user" (lit "B");
   chat "assistant" (lit "C"); chat "user" (lit "D")].

(** Three user messages; the blocks of the last two are exactly
    [PROMPT_LIMIT] long (seven code units of [Human: ], 4791 of content, two
    line feeds). *)
Definition sample_long_history : list message :=
  [chat "user" (lit "old");
   chat "user" (repeat 97%N 4791);
   chat "user" (repeat 98%N 4791)].

(** Three user messages whose blocks are 3000 code units long each. *)
Definition sample_fragmented : list message :=
  [chat "user" (repeat 97%N 2991);
   chat "user" (repeat 98%N 2991);
   chat "user" (repeat 99%N 2991)].

(** One user message whose block is one code unit longer than
    [PROMPT_LIMIT]. *)
Definition sample_oversized : list message :=
  [chat "user" (repeat 97%N 4792)].

(** A backend event with a string output and a partial flag. *)
Definition event (o : string) (p : bool) : jsval :=
  JObject [(lit "output", JString (lit o)); (lit "partial", JBool p)].

(** A backend event that carries an error payload and nothing else. *)
Definition error_event (e : string) : jsval :=
  JObject [(lit "error", JString (lit e))].

(** A serialiser for the samples: as [JSON.stringify], it puts a string that
    needs no escape between double quotes (code unit 34). *)
Definition sample_stringify : jsval -> jstring :=
  fun v => match v with
           | JString s => [34%N] ++ s ++ [34%N]
           | _ => lit "null"
           end.

(** The streaming example of the specification. *)
Definition sample_stream : list jsval :=
  [event "Hi" true; event "Hi there" true; event "Hi there!" false].

(** A stream whose last event repeats the snapshot and is not flagged final. *)
Definition sample_unflagged_stream : list jsval :=
  [event "Hi" true; event "Hi" true].

(** ** Vocabulary and samples for the routes *)

(** A message whose [null] or [undefined] content is made the empty text. *)
Definition with_text_content (m : message) : message :=
  match content m with
  | JNull | JUndefined => {| role := role m; content := JString [] |}
  | _ => m
  end.

(** The request is for one of the two paths line 217 guards. *)
Definition guarded_path (req : request) : Prop :=
  pathname req = lit "/v1/models" \/ pathname req = lit "/v1/chat/completions".

(** The response of line 218. *)
Definition unauthorized : response :=
  {| status := 401; headers := json_headers;
     body := ErrorBody (lit "Unauthorized: Invalid API Key") |}.

(** The response of line 258. *)
Definition bad_request : response :=
  {| status := 400; headers := json_headers;
     body := ErrorBody (lit "Missing or invalid parameters: model and messages array are required.") |}.

(** An event of the stream carries an error payload. *)
Definition has_error_event (events : list jsval) : bool :=
  existsb (fun e => truthy (errorInfo_of e)) events.

Definition is_done (f : sse) : bool :=
  match f with
  | Frame DoneFrame => true
  | _ => false
  end.

(** A system message, a block that fills the system slot's budget to the last
    code unit (4787) and a block that fills the prompt (4800). *)
Definition sample_full_slots : list message :=
  [chat "system" (lit "A");
   chat "user" (repeat 98%N 4778);
   chat "user" (repeat 97%N 4791)].

(** A system message whose text leaves the system slot no room for history,
    and two turns of which only the second fits the prompt. *)
Definition sample_long_system : list message :=
  [chat "system" (repeat 97%N 4790);
   chat "user" (lit "old");
   chat "user" (repeat 98%N 4791)].

(** For the samples, the conversion of an object throws when the object has
    a [toString] property. *)
Definition sample_String_throws : jsval -> bool :=
  fun v => match get v (lit "toString") with
           | JUndefined => false
           | _ => true
           end.

(** A lower-casing for the samples, whose texts are all below 128. *)
Definition sample_toLowerCase : jstring -> jstring := fun s => s.

Definition sample_key : jstring := lit "secret".

(** A backend for the samples: one result, and the stream of the
    specification's example. *)
Definition sample_subscribe : fal_input -> option jsval :=
  fun _ => Some (JObject [(lit "output", JString (lit "Hello"))]).

Definition sample_backend_stream : fal_input -> list jsval * stream_end :=
  fun _ => (sample_stream, EndOfStream).

(** A chat completions request with the sample key. *)
Definition sample_request (b : option chat_body) : request :=
  {| method := lit "POST";
     pathname := lit "/v1/chat/completions";
     authorization := Some (lit "Bearer secret");
     json_body := b |}.

(* ================================================================== *)
(** * Part V. Strings                                                  *)
(* ================================================================== *)

Lemma len_nonneg (s : jstring) : 0 <= len s.
Proof. unfold len. lia. Qed.

Lemma len_app (s t : jstring) : len (s ++ t) = len s + len t.
Proof. unfold len. rewrite length_app. lia. Qed.

Lemma str_eqb_nil (s : jstring) : str_eqb s [] = true <-> s = [].
Proof. destruct s; simpl; split; intro H; try reflexivity; discriminate. Qed.

Lemma total_app (xs ys : list jstring) : total (xs ++ ys) = total xs + total ys.
Proof. induction xs as [|x xs IH]; simpl; lia. Qed.

Lemma total_nonneg (xs : list jstring) : 0 <= total xs.
Proof.
  induction xs as [|x xs IH]; simpl; [lia|]. pose proof (len_nonneg x). lia.
Qed.

Lemma total_rev (xs : list jstring) : total (rev xs) = total xs.
Proof. induction xs as [|x xs IH]; simpl; [reflexivity|]. rewrite total_app. simpl. lia. Qed.

Lemma len_join (xs : list jstring) : len (join xs) = total xs.
Proof.
  induction xs as [|x xs IH]; simpl; [reflexivity|].
  unfold join in *. simpl. rewrite len_app. lia.
Qed.

Lemma trimStart_length (s : jstring) : (List.length (trimStart s) <= List.length s)%nat.
Proof.
  induction s as [|c s IH]; simpl; [lia|]. destruct (is_white_space c); simpl; lia.
Qed.

Lemma len_trim (s : jstring) : len (trim s) <= len s.
Proof.
  unfold trim, trimEnd, len. rewrite length_rev.
  pose proof (trimStart_length (rev (trimStart s))) as H1.
  rewrite length_rev in H1. pose proof (trimStart_length s). lia.
Qed.

(** Trimming at the start keeps everything from the first code unit that is
    not white space. *)
Lemma trimStart_keeps (s t : jstring) (c : code_unit) :
  is_white_space c = false -> exists u, trimStart (s ++ c :: t) = u ++ c :: t.
Proof.
  intro Hc. induction s as [|d s IH]; simpl.
  - rewrite Hc. exists []. reflexivity.
  - destruct (is_white_space d).
    + exact IH.
    + exists (d :: s). reflexivity.
Qed.

(** A text that starts with a code unit that is not white space keeps it. *)
Lemma trim_starts (c : code_unit) (s : jstring) :
  is_white_space c = false -> exists u, trim (c :: s) = c :: u.
Proof.
  intro Hc. unfold trim, trimEnd. simpl trimStart at 2. rewrite Hc.
  simpl rev at 2.
  destruct (trimStart_keeps (rev s) [] c Hc) as [u Hu].
  rewrite Hu. rewrite rev_app_distr. simpl. exists (rev u). reflexivity.
Qed.

Lemma startsWith_nil (s : jstring) : startsWith s [] = true.
Proof. destruct s; reflexivity. Qed.

Lemma startsWith_iff (s p : jstring) :
  startsWith s p = true <-> exists d, s = p ++ d.
Proof.
  revert s. induction p as [|c p IH]; intro s; simpl.
  - split; [intros _; exists s; reflexivity | reflexivity].
  - destruct s as [|d s].
    + split; [discriminate | intros [x Hx]; discriminate].
    + rewrite andb_true_iff, N.eqb_eq, IH. split.
      * intros [-> [x ->]]. exists x. reflexivity.
      * intros [x Hx]. injection Hx as -> ->. split; [reflexivity | exists x; reflexivity].
Qed.

Lemma substring_from_app (p d : jstring) : substring_from (p ++ d) (len p) = d.
Proof.
  unfold substring_from, len. rewrite Nat2Z.id.
  rewrite skipn_app, skipn_all, Nat.sub_diag. reflexivity.
Qed.

(* ================================================================== *)
(** * Part VI. The prompt composer                                     *)
(* ================================================================== *)

Lemma take_fit_split (limit cur : Z) (newest_first : list jstring) :
  newest_first = fst (take_fit limit cur newest_first)
                 ++ snd (take_fit limit cur newest_first).
Proof.
  revert cur. induction newest_first as [|b older IH]; intro cur; simpl.
  - reflexivity.
  - destruct (cur + len b <=? limit); [|reflexivity].
    specialize (IH (cur + len b)).
    destruct (take_fit limit (cur + len b) older) as [taken rest].
    simpl in *. congruence.
Qed.

Lemma take_fit_total (limit cur : Z) (newest_first : list jstring) :
  cur <= limit -> cur + total (fst (take_fit limit cur newest_first)) <= limit.
Proof.
  revert cur. induction newest_first as [|b older IH]; intros cur Hcur; simpl.
  - lia.
  - destruct (cur + len b <=? limit) eqn:Hfit; simpl; [|lia].
    apply Z.leb_le in Hfit. specialize (IH (cur + len b) Hfit).
    destruct (take_fit limit (cur + len b) older) as [taken rest].
    simpl in *. lia.
Qed.

(** The block after the run is one the budget does not hold. *)
Lemma take_fit_stop (limit cur : Z) (newest_first : list jstring) (b : jstring)
      (rest : list jstring) :
  snd (take_fit limit cur newest_first) = b :: rest ->
  limit < cur + total (fst (take_fit limit cur newest_first)) + len b.
Proof.
  revert cur. induction newest_first as [|a older IH]; intros cur; simpl.
  - discriminate.
  - destruct (cur + len a <=? limit) eqn:Hfit.
    + specialize (IH (cur + len a)).
      destruct (take_fit limit (cur + len a) older) as [taken rest'].
      simpl in *. intro H. specialize (IH H). lia.
    + simpl. intro H. injection H as -> _. apply Z.leb_gt in Hfit. lia.
Qed.

Section FillLoop.

Variable remaining : Z.

(** Both flags set: the loop is over, whatever is left. *)
Lemma fill_loop_stopped (newest_first : list jstring) (st : fill_state) :
  promptFull st = true -> systemHistoryFull st = true ->
  fill_loop remaining newest_first st = st.
Proof.
  intros Hp Hs. destruct newest_first; simpl; [reflexivity|].
  rewrite Hp, Hs. reflexivity.
Qed.

(** Once the prompt is full, the loop is the run of the system slot. *)
Lemma fill_loop_system (newest_first : list jstring) (st : fill_state) :
  promptFull st = true -> systemHistoryFull st = false ->
  fill_loop remaining newest_first st =
  {| prompt_history_blocks := prompt_history_blocks st;
     system_prompt_history_blocks :=
       rev (fst (take_fit remaining (current_system_history_length st) newest_first))
       ++ system_prompt_history_blocks st;
     current_prompt_length := current_prompt_length st;
     current_system_history_length :=
       current_system_history_length st
       + total (fst (take_fit remaining (current_system_history_length st) newest_first));
     promptFull := true;
     systemHistoryFull :=
       match snd (take_fit remaining (current_system_history_length st) newest_first) with
       | [] => false
       | _ :: _ => true
       end |}.
Proof.
  revert st. induction newest_first as [|b older IH]; intros st Hp Hs.
  - destruct st; simpl in *; subst. f_equal. lia.
  - simpl fill_loop. rewrite Hp, Hs. simpl andb. cbv iota.
    unfold fill_body. rewrite Hp, Hs. simpl negb. cbv iota. simpl take_fit.
    destruct (current_system_history_length st + len b <=? remaining) eqn:Hfit.
    + rewrite IH by reflexivity. simpl.
      destruct (take_fit remaining (current_system_history_length st + len b) older)
        as [taken rest]. simpl.
      f_equal; [rewrite <- app_assoc; reflexivity | lia].
    + rewrite fill_loop_stopped by reflexivity.
      destruct st; simpl in *; subst. f_equal. lia.
Qed.

(** While the prompt is not full, the loop is the run of the prompt slot,
    and then the loop from the first block the prompt does not hold. *)
Lemma fill_loop_prompt (newest_first : list jstring) (st : fill_state) :
  promptFull st = false ->
  fill_loop remaining newest_first st =
  let taken := fst (take_fit PROMPT_LIMIT (current_prompt_length st) newest_first) in
  let rest := snd (take_fit PROMPT_LIMIT (current_prompt_length st) newest_first) in
  let st' full :=
    {| prompt_history_blocks := rev taken ++ prompt_history_blocks st;
       system_prompt_history_blocks := system_prompt_history_blocks st;
       current_prompt_length := current_prompt_length st + total taken;
       current_system_history_length := current_system_history_length st;
       promptFull := full;
       systemHistoryFull := systemHistoryFull st |} in
  match rest with
  | [] => st' false
  | _ :: _ => fill_loop remaining rest (st' true)
  end.
Proof.
  revert st. induction newest_first as [|b older IH]; intros st Hp.
  - destruct st; simpl in *; subst. f_equal. lia.
  - destruct st as [pb sb cp cs pf sf]. simpl in Hp. subst pf.
    unfold fill_loop at 1; fold fill_loop. unfold fill_body. simpl.
    destruct (cp + len b <=? PROMPT_LIMIT) eqn:Hfit.
    + rewrite IH by reflexivity. simpl.
      destruct (take_fit PROMPT_LIMIT (cp + len b) older) as [taken rest]. simpl.
      replace ((rev taken ++ [b]) ++ pb) with (rev taken ++ b :: pb)
        by (rewrite <- app_assoc; reflexivity).
      replace (cp + (len b + total taken)) with (cp + len b + total taken) by lia.
      reflexivity.
    + simpl. replace (cp + 0) with cp by lia.
      destruct sf; simpl.
      * apply fill_loop_stopped; reflexivity.
      * unfold fill_body. simpl. reflexivity.
Qed.

End FillLoop.

(** The prompt slot holds the longest run of most recent blocks within
    [PROMPT_LIMIT], whatever the system slot has room for. *)
Lemma fill_prompt_blocks (remaining : Z) (blocks : list jstring) :
  prompt_history_blocks (fill remaining blocks) =
  rev (fst (take_fit PROMPT_LIMIT 0 (rev blocks))).
Proof.
  unfold fill. rewrite fill_loop_prompt by reflexivity. cbv zeta. simpl.
  destruct (snd (take_fit PROMPT_LIMIT 0 (rev blocks))) as [|b rest].
  - simpl. apply app_nil_r.
  - destruct (remaining <=? 0) eqn:Hr.
    + rewrite fill_loop_stopped by (simpl; auto). simpl. apply app_nil_r.
    + rewrite fill_loop_system by (simpl; auto). simpl. apply app_nil_r.
Qed.

(** The system slot holds the longest run within the history budget of the
    blocks the prompt did not hold; none when the budget starts exhausted. *)
Lemma fill_system_blocks (remaining : Z) (blocks : list jstring) :
  system_prompt_history_blocks (fill remaining blocks) =
  if remaining <=? 0 then []
  else rev (fst (take_fit remaining 0 (snd (take_fit PROMPT_LIMIT 0 (rev blocks))))).
Proof.
  unfold fill. rewrite fill_loop_prompt by reflexivity. cbv zeta. simpl.
  destruct (snd (take_fit PROMPT_LIMIT 0 (rev blocks))) as [|b rest].
  - simpl. destruct (remaining <=? 0); reflexivity.
  - destruct (remaining <=? 0) eqn:Hr.
    + rewrite fill_loop_stopped by (simpl; auto). reflexivity.
    + rewrite fill_loop_system by (simpl; auto). simpl. apply app_nil_r.
Qed.

Lemma fill_prompt_total (remaining : Z) (blocks : list jstring) :
  total (prompt_history_blocks (fill remaining blocks)) <= PROMPT_LIMIT.
Proof.
  rewrite fill_prompt_blocks, total_rev.
  pose proof (take_fit_total PROMPT_LIMIT 0 (rev blocks)) as H.
  unfold PROMPT_LIMIT in *. lia.
Qed.

Lemma fill_system_total (remaining : Z) (blocks : list jstring) :
  0 <= remaining ->
  total (system_prompt_history_blocks (fill remaining blocks)) <= remaining.
Proof.
  intro Hr. rewrite fill_system_blocks.
  destruct (remaining <=? 0); simpl; [exact Hr|].
  rewrite total_rev.
  pose proof (take_fit_total remaining 0
                (snd (take_fit PROMPT_LIMIT 0 (rev blocks))) Hr). lia.
Qed.

(** The blocks that are kept are the most recent ones: the system slot's run
    sits immediately before the prompt's run, and the prompt's run ends the
    conversation. *)
Lemma fill_decomposition (remaining : Z) (blocks : list jstring) :
  exists older : list jstring,
    blocks = older ++ system_prompt_history_blocks (fill remaining blocks)
                   ++ prompt_history_blocks (fill remaining blocks).
Proof.
  rewrite fill_prompt_blocks, fill_system_blocks.
  pose proof (take_fit_split PROMPT_LIMIT 0 (rev blocks)) as H1.
  set (taken1 := fst (take_fit PROMPT_LIMIT 0 (rev blocks))) in *.
  set (rest1 := snd (take_fit PROMPT_LIMIT 0 (rev blocks))) in *.
  assert (Hb : blocks = rev rest1 ++ rev taken1).
  { rewrite <- rev_app_distr, <- H1, rev_involutive. reflexivity. }
  destruct (remaining <=? 0).
  - exists (rev rest1). exact Hb.
  - pose proof (take_fit_split remaining 0 rest1) as H2.
    exists (rev (snd (take_fit remaining 0 rest1))).
    rewrite app_assoc, <- rev_app_distr, <- H2. exact Hb.
Qed.

(** Two runs that split one list: the shorter first part is a prefix of the
    longer one. *)
Lemma app_eq_app_le (A : Type) (l1 r1 l2 r2 : list A) :
  l1 ++ r1 = l2 ++ r2 -> (List.length l1 <= List.length l2)%nat ->
  exists x, l2 = l1 ++ x /\ r1 = x ++ r2.
Proof.
  revert l2. induction l1 as [|a l1 IH]; intros l2 H Hlen.
  - exists l2. split; [reflexivity | exact H].
  - destruct l2 as [|b l2]; simpl in Hlen; [lia|].
    simpl in H. injection H as -> H.
    destruct (IH l2 H ltac:(lia)) as [x [-> ->]].
    exists x. split; reflexivity.
Qed.

(** The greedy placement is the largest: any other way to place a run of most
    recent blocks whole, the newer ones in the prompt and the older ones in
    the system slot, places no more blocks. Lists are most recent first. *)
Lemma greedy_is_largest (limit remaining : Z)
      (taken1 taken2 rest2 pr sys rest : list jstring) :
  taken1 ++ taken2 ++ rest2 = pr ++ sys ++ rest ->
  (forall b r, taken2 ++ rest2 = b :: r -> limit < total taken1 + len b) ->
  (forall b r, rest2 = b :: r -> remaining < total taken2 + len b) ->
  total pr <= limit -> total sys <= remaining ->
  (List.length pr + List.length sys <= List.length taken1 + List.length taken2)%nat.
Proof.
  intros Heq Hstop1 Hstop2 Hpr Hsys.
  destruct (Nat.le_gt_cases (List.length pr) (List.length taken1)) as [Hle|Hgt].
  - destruct (app_eq_app_le _ _ _ _ _ (eq_sym Heq) Hle) as [y [-> Hy]].
    rewrite length_app.
    destruct (Nat.le_gt_cases (List.length sys) (List.length y + List.length taken2))
      as [Hle2|Hgt2]; [lia|exfalso].
    rewrite app_assoc in Hy.
    assert (Hlen : (List.length (y ++ taken2) <= List.length sys)%nat)
      by (rewrite length_app; lia).
    destruct (app_eq_app_le _ _ _ _ _ (eq_sym Hy) Hlen) as [z [-> Hz]].
    destruct z as [|b z]; [rewrite !length_app in Hgt2; simpl in Hgt2; lia|].
    specialize (Hstop2 b (z ++ rest) Hz).
    rewrite !total_app in Hsys. simpl in Hsys.
    pose proof (total_nonneg y). pose proof (total_nonneg z). lia.
  - exfalso.
    destruct (app_eq_app_le _ _ _ _ _ Heq ltac:(lia)) as [x [-> Hx]].
    destruct x as [|b x]; [rewrite app_nil_r in Hgt; lia|].
    specialize (Hstop1 b (x ++ sys ++ rest) Hx).
    rewrite total_app in Hpr. simpl in Hpr.
    pose proof (total_nonneg x). lia.
Qed.

Lemma most_recent_length (K : nat) (blocks : list jstring) :
  (K <= List.length blocks)%nat -> List.length (most_recent K blocks) = K.
Proof. intro H. unfold most_recent. rewrite length_skipn. lia. Qed.

Lemma most_recent_app (older kept : list jstring) :
  most_recent (List.length kept) (older ++ kept) = kept.
Proof.
  unfold most_recent. rewrite length_app.
  replace (List.length older + List.length kept - List.length kept)%nat
    with (List.length older) by lia.
  rewrite skipn_app, skipn_all, Nat.sub_diag. reflexivity.
Qed.

Section Recency.

Variable remaining : Z.
Variable blocks : list jstring.
Hypothesis remaining_nonneg : 0 <= remaining.
Hypothesis blocks_positive : Forall (fun b => 0 < len b) blocks.

(** No placement of whole blocks keeps more of the most recent blocks than
    the loop does. *)
Lemma fill_is_largest (K : nat) :
  placeable remaining blocks K ->
  (K <= List.length (system_prompt_history_blocks (fill remaining blocks)
                     ++ prompt_history_blocks (fill remaining blocks)))%nat.
Proof.
  intros [HK [sys [pr [Hsplit [Hsys Hpr]]]]].
  rewrite length_app, fill_prompt_blocks, fill_system_blocks.
  pose proof (take_fit_split PROMPT_LIMIT 0 (rev blocks)) as H1.
  pose proof (take_fit_stop PROMPT_LIMIT 0 (rev blocks)) as Hstop1.
  set (taken1 := fst (take_fit PROMPT_LIMIT 0 (rev blocks))) in *.
  set (rest1 := snd (take_fit PROMPT_LIMIT 0 (rev blocks))) in *.
  assert (Hpos1 : Forall (fun b => 0 < len b) rest1).
  { apply Forall_rev in blocks_positive. rewrite H1 in blocks_positive.
    apply Forall_app in blocks_positive. tauto. }
  assert (Hrev : rev blocks
                 = rev pr ++ rev sys
                   ++ rev (firstn (List.length blocks - K) blocks)).
  { rewrite <- (firstn_skipn (List.length blocks - K) blocks) at 1.
    fold (most_recent K blocks). rewrite Hsplit.
    rewrite !rev_app_distr, app_assoc. reflexivity. }
  pose proof (most_recent_length K blocks HK) as HlenK.
  rewrite Hsplit, length_app in HlenK.
  set (taken2 := if remaining <=? 0 then []
                 else fst (take_fit remaining 0 rest1)).
  set (rest2 := if remaining <=? 0 then rest1
                else snd (take_fit remaining 0 rest1)).
  assert (H2 : rest1 = taken2 ++ rest2).
  { unfold taken2, rest2. destruct (remaining <=? 0); [reflexivity|].
    apply take_fit_split. }
  assert (Hstop2 : forall b r, rest2 = b :: r -> remaining < total taken2 + len b).
  { unfold taken2, rest2. intros b r Hb.
    destruct (remaining <=? 0) eqn:Hr.
    - apply Z.leb_le in Hr. rewrite Hb in Hpos1. inversion Hpos1; subst.
      simpl. lia.
    - pose proof (take_fit_stop remaining 0 rest1 b r Hb). lia. }
  assert (Hgoal : (List.length (rev pr) + List.length (rev sys)
                   <= List.length taken1 + List.length taken2)%nat).
  { apply (greedy_is_largest PROMPT_LIMIT remaining taken1 taken2 rest2
             (rev pr) (rev sys) (rev (firstn (List.length blocks - K) blocks))).
    - rewrite <- H2, <- H1. exact Hrev.
    - intros b r Hb. rewrite <- H2 in Hb. specialize (Hstop1 b r Hb). lia.
    - exact Hstop2.
    - rewrite total_rev. exact Hpr.
    - rewrite total_rev. exact Hsys. }
  rewrite !length_rev in Hgoal.
  replace (List.length (if remaining <=? 0 then []
                        else rev (fst (take_fit remaining 0 rest1))))
    with (List.length taken2)
    by (unfold taken2; destruct (remaining <=? 0); [|rewrite length_rev]; reflexivity).
  rewrite length_rev. lia.
Qed.

(** The blocks the loop keeps can be placed, and no more can. *)
Lemma fill_only_most_recent_placeable :
  only_most_recent_placeable remaining blocks
    (List.length (system_prompt_history_blocks (fill remaining blocks)
                  ++ prompt_history_blocks (fill remaining blocks))).
Proof.
  split.
  - destruct (fill_decomposition remaining blocks) as [older Hold].
    split.
    + rewrite Hold at 3. rewrite (length_app older). lia.
    + exists (system_prompt_history_blocks (fill remaining blocks)),
             (prompt_history_blocks (fill remaining blocks)).
      split; [|split].
      * rewrite Hold at 3. apply most_recent_app.
      * apply fill_system_total. exact remaining_nonneg.
      * apply fill_prompt_total.
  - intros K' HK' Hfit. apply fill_is_largest in Hfit. lia.
Qed.

(** Recency preservation on the blocks: when only the [K] most recent can be
    placed,
    the two slots hold exactly those, older ones first. *)
Lemma fill_keeps_most_recent (K : nat) :
  only_most_recent_placeable remaining blocks K ->
  system_prompt_history_blocks (fill remaining blocks)
  ++ prompt_history_blocks (fill remaining blocks) = most_recent K blocks.
Proof.
  intros [Hfit Hmax].
  pose proof fill_only_most_recent_placeable as [Hfit0 Hmax0].
  set (kept := system_prompt_history_blocks (fill remaining blocks)
               ++ prompt_history_blocks (fill remaining blocks)) in *.
  assert (HK : K = List.length kept).
  { destruct (Nat.lt_trichotomy K (List.length kept)) as [Hlt|[Heq|Hgt]].
    - exfalso. exact (Hmax _ Hlt Hfit0).
    - exact Heq.
    - exfalso. exact (Hmax0 _ Hgt Hfit). }
  destruct (fill_decomposition remaining blocks) as [older Hold].
  fold kept in Hold. rewrite HK.
  pose proof (most_recent_app older kept) as Hm. rewrite <- Hold in Hm.
  symmetry. exact Hm.
Qed.

End Recency.

Lemma str_eqb_eq (s t : jstring) : str_eqb s t = true <-> s = t.
Proof.
  revert t. induction s as [|c s IH]; intros [|d t]; simpl;
    try (split; [discriminate + reflexivity | discriminate + reflexivity]).
  rewrite andb_true_iff, N.eqb_eq, IH. split.
  - intros [-> ->]. reflexivity.
  - intro H. injection H as -> ->. split; reflexivity.
Qed.

Lemma flat_map_filter (A B : Type) (keep : A -> bool) (g : A -> list B) (l : list A) :
  (forall a, keep a = false -> g a = []) ->
  flat_map g (filter keep l) = flat_map g l.
Proof.
  intro H. induction l as [|a l IH]; simpl; [reflexivity|].
  destruct (keep a) eqn:Hk; simpl; rewrite IH; [reflexivity|].
  rewrite (H a Hk). reflexivity.
Qed.

Section ComposerProperties.

Variable String_of_other : jsval -> jstring.

Lemma role_is_exclusive (m : message) (r1 r2 : string) :
  role_is m r1 = true -> role_is m r2 = true -> lit r1 = lit r2.
Proof.
  unfold role_is. destruct (role m); try discriminate.
  rewrite !str_eqb_eq. congruence.
Qed.

Lemma user_is_not_system (m : message) :
  role_is m "user" = true -> role_is m "system" = false.
Proof.
  intro H. destruct (role_is m "system") eqn:Hs; [|reflexivity].
  pose proof (role_is_exclusive m _ _ H Hs) as E. discriminate E.
Qed.

Lemma assistant_is_not_system (m : message) :
  role_is m "assistant" = true -> role_is m "system" = false.
Proof.
  intro H. destruct (role_is m "system") eqn:Hs; [|reflexivity].
  pose proof (role_is_exclusive m _ _ H Hs) as E. discriminate E.
Qed.

(** One turn of step 1 adds the message's system text or its block. *)
Lemma partition_step_adds (st : partition_state) (m : message) :
  partition_step String_of_other st m =
  {| fixed_system_prompt_content :=
       fixed_system_prompt_content st ++ system_text String_of_other m;
     conversation_message_blocks :=
       conversation_message_blocks st ++ conversation_block String_of_other m |}.
Proof.
  unfold partition_step, system_text, conversation_block.
  destruct st as [fixed blocks].
  destruct (role_is m "system"); [|destruct (role_is m "user");
                                    [|destruct (role_is m "assistant")]];
    cbn [fixed_system_prompt_content conversation_message_blocks];
    rewrite ?app_nil_r; reflexivity.
Qed.

(** Step 1 as a whole: the system texts concatenated, the conversation blocks
    in the order of the messages. *)
Lemma partition_fold (messages : list message) (st : partition_state) :
  fold_left (partition_step String_of_other) messages st =
  {| fixed_system_prompt_content :=
       fixed_system_prompt_content st
       ++ flat_map (system_text String_of_other) messages;
     conversation_message_blocks :=
       conversation_message_blocks st
       ++ flat_map (conversation_block String_of_other) messages |}.
Proof.
  revert st. induction messages as [|m messages IH]; intro st.
  - cbn [fold_left flat_map]. rewrite !app_nil_r. destruct st; reflexivity.
  - cbn [fold_left flat_map]. rewrite IH, partition_step_adds.
    cbn [fixed_system_prompt_content conversation_message_blocks].
    rewrite <- !app_assoc. reflexivity.
Qed.

Lemma blocks_of_messages (messages : list message) :
  conversation_message_blocks (partition_messages String_of_other messages)
  = flat_map (conversation_block String_of_other) messages.
Proof. unfold partition_messages. rewrite partition_fold. reflexivity. Qed.

Lemma fixed_of_messages (messages : list message) :
  fixed_system_prompt_content (partition_messages String_of_other messages)
  = flat_map (system_text String_of_other) messages.
Proof. unfold partition_messages. rewrite partition_fold. reflexivity. Qed.

(** Every block comes from a user or assistant message of the list. *)
Lemma block_origin (messages : list message) (b : jstring) :
  In b (conversation_message_blocks (partition_messages String_of_other messages)) ->
  exists m, In m messages /\ role_is m "system" = false
            /\ is_conversation_message m = true
            /\ conversation_block String_of_other m = [b].
Proof.
  rewrite blocks_of_messages, in_flat_map. intros [m [Hm Hb]].
  exists m. split; [exact Hm|].
  unfold conversation_block, is_conversation_message in *.
  destruct (role_is m "system"); [contradiction|].
  destruct (role_is m "user"); simpl in *.
  - destruct Hb as [<-|[]]. auto.
  - destruct (role_is m "assistant"); simpl in *; [|contradiction].
    destruct Hb as [<-|[]]. auto.
Qed.

(** Every block starts with the [H] of [Human] or the [A] of [Assistant]. *)
Lemma block_starts (messages : list message) (b : jstring) :
  In b (conversation_message_blocks (partition_messages String_of_other messages)) ->
  exists c u, b = c :: u /\ is_white_space c = false.
Proof.
  intro H. destruct (block_origin messages b H) as [m [_ [_ [_ Hb]]]].
  unfold conversation_block in Hb.
  destruct (role_is m "system"); [discriminate|].
  destruct (role_is m "user").
  - injection Hb as <-. eexists; eexists. split; reflexivity.
  - destruct (role_is m "assistant"); [|discriminate].
    injection Hb as <-. eexists; eexists. split; reflexivity.
Qed.

Lemma blocks_positive (messages : list message) :
  Forall (fun b => 0 < len b)
    (conversation_message_blocks (partition_messages String_of_other messages)).
Proof.
  apply Forall_forall. intros b Hb.
  destruct (block_starts messages b Hb) as [c [u [-> _]]].
  unfold len. simpl. lia.
Qed.

Lemma remaining_nonneg (fixed : jstring) : 0 <= remaining_system_limit fixed.
Proof. unfold remaining_system_limit. lia. Qed.

Lemma len_truncate_system (s : jstring) : len (truncate_system s) <= SYSTEM_PROMPT_LIMIT.
Proof.
  unfold truncate_system.
  destruct (SYSTEM_PROMPT_LIMIT <? len s) eqn:H.
  - unfold substring_to, len. rewrite length_firstn.
    unfold SYSTEM_PROMPT_LIMIT. lia.
  - apply Z.ltb_ge in H. exact H.
Qed.

Lemma len_fixed_system (messages : list message) :
  len (fixed_system String_of_other messages) <= SYSTEM_PROMPT_LIMIT.
Proof.
  unfold fixed_system.
  pose proof (len_trim (truncate_system
    (fixed_system_prompt_content (partition_messages String_of_other messages)))).
  pose proof (len_truncate_system
    (fixed_system_prompt_content (partition_messages String_of_other messages))).
  lia.
Qed.

(** C1. Budget invariant: for every message list the prompt is at most
    [PROMPT_LIMIT] long; the history placed in the system slot (its blocks,
    and the joined and trimmed text that goes into [system_prompt]) is at most
    the remaining system budget, which is [SYSTEM_PROMPT_LIMIT] when the
    trimmed fixed text is empty and [max(0, SYSTEM_PROMPT_LIMIT - (len fixed
    + 4))] otherwise; and [system_prompt] is at most [SYSTEM_PROMPT_LIMIT]
    plus the length of the separator long. *)
Theorem budget_invariant (messages : list message) :
  let result := convertMessagesToFalPrompt String_of_other messages in
  let fixed := fixed_system String_of_other messages in
  let history := system_prompt_history_content String_of_other messages in
  let budget := remaining_system_limit fixed in
  len (prompt result) <= PROMPT_LIMIT
  /\ system_prompt result = assemble fixed history
  /\ budget = (if str_eqb fixed [] then SYSTEM_PROMPT_LIMIT
               else Z.max 0 (SYSTEM_PROMPT_LIMIT - (len fixed + 4)))
  /\ total (system_prompt_history_blocks (filled String_of_other messages)) <= budget
  /\ len history <= budget
  /\ len (system_prompt result) <= SYSTEM_PROMPT_LIMIT + len SEPARATOR.
Proof.
  cbv zeta.
  set (fixed := fixed_system String_of_other messages).
  set (history := system_prompt_history_content String_of_other messages).
  assert (Hblocks : total (system_prompt_history_blocks (filled String_of_other messages))
                    <= remaining_system_limit fixed).
  { unfold filled. apply fill_system_total. apply remaining_nonneg. }
  assert (Hhist : len history <= remaining_system_limit fixed).
  { unfold history, system_prompt_history_content.
    pose proof (len_trim (join (system_prompt_history_blocks
                                  (filled String_of_other messages)))) as Ht.
    rewrite len_join in Ht. lia. }
  assert (Hbudget : remaining_system_limit fixed
                    = (if str_eqb fixed [] then SYSTEM_PROMPT_LIMIT
                       else Z.max 0 (SYSTEM_PROMPT_LIMIT - (len fixed + 4)))).
  { unfold remaining_system_limit, space_occupied_by_fixed_system.
    destruct fixed as [|c fixed'] eqn:Hf.
    - simpl. unfold SYSTEM_PROMPT_LIMIT. reflexivity.
    - simpl str_eqb.
      replace (0 <? len (c :: fixed')) with true; [reflexivity|].
      symmetry. apply Z.ltb_lt. unfold len. simpl. lia. }
  split; [|split; [|split; [|split; [|split]]]].
  - subst fixed history. simpl. unfold final_prompt.
    pose proof (len_trim (join (prompt_history_blocks
                                  (filled String_of_other messages)))) as Ht.
    rewrite len_join in Ht.
    pose proof (fill_prompt_total
                  (remaining_system_limit (fixed_system String_of_other messages))
                  (conversation_message_blocks
                     (partition_messages String_of_other messages))).
    unfold filled in *. lia.
  - reflexivity.
  - exact Hbudget.
  - exact Hblocks.
  - exact Hhist.
  - simpl system_prompt. fold fixed. fold history.
    pose proof (len_fixed_system messages) as Hfix. fold fixed in Hfix.
    pose proof (len_nonneg history). pose proof (len_nonneg fixed).
    assert (Hsep : len SEPARATOR = 29) by reflexivity.
    unfold assemble.
    destruct (0 <? len fixed) eqn:Hf; destruct (0 <? len history) eqn:Hh; cbn [andb].
    + apply Z.ltb_lt in Hf, Hh. rewrite !len_app, Hsep.
      unfold remaining_system_limit, space_occupied_by_fixed_system in Hhist.
      replace (0 <? len fixed) with true in Hhist by (symmetry; apply Z.ltb_lt; exact Hf).
      lia.
    + lia.
    + unfold remaining_system_limit in Hhist.
      pose proof (remaining_nonneg fixed).
      unfold space_occupied_by_fixed_system in Hhist. rewrite Hf in Hhist. lia.
    + unfold len at 1, SYSTEM_PROMPT_LIMIT. simpl. lia.
Qed.

(** The prompt slot holds a block exactly when the most recent block fits. *)
Lemma prompt_blocks_nonempty (remaining : Z) (older : list jstring) (b : jstring) :
  prompt_history_blocks (fill remaining (older ++ [b])) <> []
  <-> len b <= PROMPT_LIMIT.
Proof.
  rewrite fill_prompt_blocks, rev_app_distr. simpl rev. simpl app.
  simpl take_fit. destruct (len b <=? PROMPT_LIMIT) eqn:Hfit.
  - apply Z.leb_le in Hfit.
    destruct (take_fit PROMPT_LIMIT (len b) (rev older)) as [taken rest].
    simpl. split; [intros _; exact Hfit|].
    intros _ H. apply app_eq_nil in H. destruct H as [_ H]. discriminate.
  - apply Z.leb_gt in Hfit. simpl. split; [intro H; contradiction|lia].
Qed.

(** The prompt is empty exactly when the prompt slot holds no block. *)
Lemma final_prompt_nonempty (messages : list message) :
  0 < len (final_prompt String_of_other messages)
  <-> prompt_history_blocks (filled String_of_other messages) <> [].
Proof.
  unfold final_prompt.
  destruct (prompt_history_blocks (filled String_of_other messages))
    as [|x pb] eqn:Hpb.
  - simpl. split; [unfold len; simpl; lia | intro H; contradiction].
  - split; [intros _; discriminate|intros _].
    destruct (fill_decomposition
                (remaining_system_limit (fixed_system String_of_other messages))
                (conversation_message_blocks
                   (partition_messages String_of_other messages)))
      as [older Hold].
    fold (filled String_of_other messages) in Hold. rewrite Hpb in Hold.
    assert (Hx : In x (conversation_message_blocks
                         (partition_messages String_of_other messages))).
    { rewrite Hold. apply in_or_app. right. apply in_or_app. right. left.
      reflexivity. }
    destruct (block_starts messages x Hx) as [c [u [-> Hc]]].
    unfold join. simpl List.concat.
    destruct (trim_starts c (u ++ List.concat pb) Hc) as [v Hv].
    change ((c :: u) ++ List.concat pb) with (c :: u ++ List.concat pb).
    rewrite Hv. unfold len. simpl. lia.
Qed.

Lemma len_cons_pos (c : code_unit) (u : jstring) : (0 <? len (c :: u)) = true.
Proof. apply Z.ltb_lt. unfold len. simpl List.length. lia. Qed.

(** C2, as the code has it. Recency preservation: for every message list, when
    only the [K] most recent conversation blocks can be placed whole (the more
    recent of them within the prompt budget, the older of them within the
    history budget of the system slot), those [K] blocks split into an older
    run and a more recent run, in their original order, such that [prompt] is
    the more recent run joined and trimmed and [system_prompt] is the fixed
    system text, the older run joined and trimmed, or the two with the
    separator between them; the blocks before those [K] are in neither: no
    older block is kept while a more recent one is dropped. *)
Theorem recency_preservation_of_placeable (messages : list message) (K : nat) :
  let blocks :=
    conversation_message_blocks (partition_messages String_of_other messages) in
  let fixed := fixed_system String_of_other messages in
  let budget := remaining_system_limit fixed in
  let result := convertMessagesToFalPrompt String_of_other messages in
  only_most_recent_placeable budget blocks K ->
  exists sys pr : list jstring,
    most_recent K blocks = sys ++ pr
    /\ blocks = firstn (List.length blocks - K) blocks ++ sys ++ pr
    /\ total sys <= budget /\ total pr <= PROMPT_LIMIT
    /\ prompt result = trim (List.concat pr)
    /\ system_prompt result =
       match fixed, trim (List.concat sys) with
       | [], history => history
       | _ :: _, [] => fixed
       | _ :: _, _ :: _ => fixed ++ SEPARATOR ++ trim (List.concat sys)
       end.
Proof.
  cbv zeta. intro Honly.
  assert (Hkept : system_prompt_history_blocks (filled String_of_other messages)
                  ++ prompt_history_blocks (filled String_of_other messages)
                  = most_recent K (conversation_message_blocks
                                     (partition_messages String_of_other messages))).
  { unfold filled. apply fill_keeps_most_recent.
    - apply remaining_nonneg.
    - apply blocks_positive.
    - exact Honly. }
  exists (system_prompt_history_blocks (filled String_of_other messages)),
         (prompt_history_blocks (filled String_of_other messages)).
  split; [symmetry; exact Hkept|].
  split; [rewrite Hkept; unfold most_recent; symmetry; apply firstn_skipn|].
  split; [unfold filled; apply fill_system_total, remaining_nonneg|].
  split; [unfold filled; apply fill_prompt_total|].
  split; [reflexivity|].
  simpl system_prompt. unfold assemble, system_prompt_history_content, join.
  destruct (fixed_system String_of_other messages) as [|c fixed].
  - change (0 <? len []) with false. cbn [andb].
    destruct (trim (List.concat (system_prompt_history_blocks
                                   (filled String_of_other messages)))) as [|d history].
    + reflexivity.
    + rewrite len_cons_pos. reflexivity.
  - rewrite len_cons_pos. cbn [andb].
    destruct (trim (List.concat (system_prompt_history_blocks
                                   (filled String_of_other messages)))) as [|d history].
    + reflexivity.
    + rewrite len_cons_pos. reflexivity.
Qed.

(** C9. For every message list the conversation is a run of older blocks,
    then the system-slot history, then the prompt slot: every block of the
    system slot is older than every block of the prompt, each slot is a
    contiguous run, and the system slot's run sits immediately before the
    prompt's. And a turn of the loop that finds the prompt marked full leaves
    it full and adds nothing to it. *)
Theorem slots_are_contiguous_runs (messages : list message) :
  (exists older : list jstring,
     conversation_message_blocks (partition_messages String_of_other messages)
     = older ++ system_prompt_history_blocks (filled String_of_other messages)
             ++ prompt_history_blocks (filled String_of_other messages))
  /\ (forall (remaining : Z) (message_block : jstring) (st : fill_state),
        promptFull st = true ->
        promptFull (fill_body remaining message_block st) = true
        /\ prompt_history_blocks (fill_body remaining message_block st)
           = prompt_history_blocks st).
Proof.
  split.
  - unfold filled. apply fill_decomposition.
  - intros remaining message_block st Hfull.
    unfold fill_body. rewrite Hfull. simpl negb. cbv iota.
    destruct (negb (systemHistoryFull st)); [|auto].
    destruct (current_system_history_length st + len message_block <=? remaining);
      simpl; auto.
Qed.

(** C4, as the code has it. For every message list with at least one user or
    assistant message, and the prompt budget positive, the prompt is non-empty
    exactly when the block of the most recent user or assistant message fits
    the prompt budget on its own (its length is at most [PROMPT_LIMIT]); a
    longer one marks the prompt full at the first turn and the prompt stays
    empty. *)
Theorem prompt_nonempty_iff_last_block_fits (messages : list message) :
  (exists m, In m messages /\ is_conversation_message m = true) ->
  0 < PROMPT_LIMIT ->
  (0 < len (prompt (convertMessagesToFalPrompt String_of_other messages))
   <-> len (most_recent_block String_of_other messages) <= PROMPT_LIMIT).
Proof.
  intros [m [Hin Hconv]] _.
  assert (Hne : conversation_message_blocks
                  (partition_messages String_of_other messages) <> []).
  { rewrite blocks_of_messages. intro Hnil.
    assert (Hb : exists b, conversation_block String_of_other m = [b]).
    { unfold conversation_block, is_conversation_message in *.
      destruct (role_is m "user") eqn:Hu.
      - rewrite (user_is_not_system m Hu). eexists. reflexivity.
      - simpl in Hconv. rewrite (assistant_is_not_system m Hconv), Hconv.
        eexists. reflexivity. }
    destruct Hb as [b Hb].
    assert (Hinb : In b (flat_map (conversation_block String_of_other) messages)).
    { apply in_flat_map. exists m. split; [exact Hin|]. rewrite Hb. left. reflexivity. }
    rewrite Hnil in Hinb. exact Hinb. }
  destruct (exists_last Hne) as [older [b Hlast]].
  simpl prompt. rewrite final_prompt_nonempty.
  unfold most_recent_block, filled. rewrite Hlast, last_last.
  apply prompt_blocks_nonempty.
Qed.

(** C8. Role partition: for every message list, (1) the prompt is the joined
    and trimmed prompt slot, each block of which is the block of a user or
    assistant message of the list, and is the same as for the list with its
    system-role messages removed; (2) the fixed system text is the cut and
    trimmed concatenation of the texts of the system-role messages alone, the
    same as for the list with every other message removed, and [system_prompt]
    is that text alone or that text, the separator and the history; (3) for
    the example [system A, user B, assistant C, user D] the result is
    [System: A] and [Human: B\n\nAssistant: C\n\nHuman: D]. *)
Theorem role_partition (messages : list message) :
  prompt (convertMessagesToFalPrompt String_of_other messages)
    = trim (join (prompt_history_blocks (filled String_of_other messages)))
  /\ Forall (fun b => exists m, In m messages /\ role_is m "system" = false
                               /\ is_conversation_message m = true
                               /\ conversation_block String_of_other m = [b])
            (prompt_history_blocks (filled String_of_other messages))
  /\ prompt (convertMessagesToFalPrompt String_of_other messages)
     = prompt (convertMessagesToFalPrompt String_of_other
                 (filter (fun m => negb (role_is m "system")) messages))
  /\ fixed_system String_of_other messages
     = trim (truncate_system
               (flat_map (system_text String_of_other)
                  (filter (fun m => role_is m "system") messages)))
  /\ fixed_system String_of_other messages
     = fixed_system String_of_other (filter (fun m => role_is m "system") messages)
  /\ system_prompt (convertMessagesToFalPrompt String_of_other messages)
     = assemble (fixed_system String_of_other messages)
                (system_prompt_history_content String_of_other messages)
  /\ convertMessagesToFalPrompt String_of_other sample_dialogue
     = {| system_prompt := lit "System: A";
          prompt := lit "Human: B" ++ [LF; LF] ++ lit "Assistant: C" ++ [LF; LF]
                    ++ lit "Human: D" |}.
Proof.
  assert (Hsys : forall l : list message,
             flat_map (system_text String_of_other)
               (filter (fun m => role_is m "system") l)
             = flat_map (system_text String_of_other) l).
  { intro l. apply flat_map_filter. intros a Ha. unfold system_text.
    rewrite Ha. reflexivity. }
  assert (Hconv : forall l : list message,
             flat_map (conversation_block String_of_other)
               (filter (fun m => negb (role_is m "system")) l)
             = flat_map (conversation_block String_of_other) l).
  { intro l. apply flat_map_filter. intros a Ha. unfold conversation_block.
    apply negb_false_iff in Ha. rewrite Ha. reflexivity. }
  split; [reflexivity|split; [|split; [|split; [|split; [|split]]]]].
  - apply Forall_forall. intros b Hb. apply block_origin.
    destruct (fill_decomposition
                (remaining_system_limit (fixed_system String_of_other messages))
                (conversation_message_blocks
                   (partition_messages String_of_other messages)))
      as [older Hold].
    rewrite Hold. apply in_or_app. right. apply in_or_app. right. exact Hb.
  - simpl prompt. unfold final_prompt, filled.
    rewrite !fill_prompt_blocks, !blocks_of_messages, Hconv. reflexivity.
  - unfold fixed_system. rewrite fixed_of_messages, Hsys. reflexivity.
  - unfold fixed_system. rewrite !fixed_of_messages, Hsys. reflexivity.
  - reflexivity.
  - vm_compute. reflexivity.
Qed.

(** Step 1 sees nothing of a message with any other role than [system],
    [user] and [assistant]. *)
Lemma partition_ignores_other_roles (messages : list message) :
  partition_messages String_of_other (filter has_supported_role messages)
  = partition_messages String_of_other messages.
Proof.
  unfold partition_messages. rewrite !partition_fold. f_equal.
  - f_equal. apply flat_map_filter. intros m Hm.
    unfold has_supported_role in Hm. unfold system_text.
    destruct (role_is m "system"); [discriminate|reflexivity].
  - f_equal. apply flat_map_filter. intros m Hm.
    unfold has_supported_role in Hm. unfold conversation_block.
    destruct (role_is m "system"); [discriminate|].
    destruct (role_is m "user"); [discriminate|].
    destruct (role_is m "assistant"); [discriminate|reflexivity].
Qed.

End ComposerProperties.

(* ================================================================== *)
(** * Part VII. The streaming loop                                     *)
(* ================================================================== *)

Lemma last_cons_default (A : Type) (l : list A) (a d : A) :
  last (a :: l) d = last l a.
Proof.
  revert a d. induction l as [|b l IH]; intros a d; [reflexivity|].
  change (last (a :: b :: l) d) with (last (b :: l) d).
  rewrite IH. symmetry. apply IH.
Qed.

Lemma delta_texts_app (xs ys : list frame) :
  delta_texts (xs ++ ys) = delta_texts xs ++ delta_texts ys.
Proof. unfold delta_texts. apply flat_map_app. Qed.

Lemma join_app (xs ys : list jstring) : join (xs ++ ys) = join xs ++ join ys.
Proof. unfold join. apply concat_app. Qed.

(** The delta of a snapshot that extends the tracked output is what it adds. *)
Lemma compute_delta_extension (previous added : jstring) :
  compute_delta previous (previous ++ added) = (added, previous).
Proof.
  unfold compute_delta.
  replace (startsWith (previous ++ added) previous) with true
    by (symmetry; apply startsWith_iff; exists added; reflexivity).
  rewrite substring_from_app. reflexivity.
Qed.

(** The delta of a non-empty snapshot that does not extend the tracked
    output is the snapshot. *)
Lemma compute_delta_mismatch (previous current : jstring) :
  startsWith current previous = false -> current <> [] ->
  compute_delta previous current = (current, []).
Proof.
  intros Hs Hne. unfold compute_delta. rewrite Hs.
  replace (0 <? len current) with true; [reflexivity|].
  symmetry. apply Z.ltb_lt. destruct current; [contradiction|].
  unfold len. simpl. lia.
Qed.

(** With nothing tracked, the delta of a snapshot is the snapshot. *)
Lemma compute_delta_fresh (current : jstring) :
  fst (compute_delta [] current) = current.
Proof. unfold compute_delta. rewrite startsWith_nil. reflexivity. Qed.

(** The delta of an empty snapshot is empty. *)
Lemma compute_delta_empty (previous : jstring) :
  fst (compute_delta previous []) = [].
Proof.
  unfold compute_delta. destruct previous; simpl; reflexivity.
Qed.

Lemma no_output_text_empty (e : jsval) :
  no_output_text e -> currentOutput_of e = [].
Proof.
  unfold no_output_text, currentOutput_of.
  destruct (truthy e); [|reflexivity].
  destruct (get e (lit "output")); auto.
Qed.

Lemma isPartial_false_iff (e : jsval) :
  isPartial_of e = false <-> flagged_final e.
Proof.
  unfold isPartial_of, flagged_final. destruct (truthy e).
  - destruct (get e (lit "partial")) as [| |b| | |];
      try (split; [discriminate | intros [_ H]; discriminate]).
    split; [intros ->; auto | intros [_ H]; injection H; auto].
  - split; [discriminate | intros [H _]; discriminate].
Qed.

(** The payload of an event that carries one is its [error] property. *)
Lemma errorInfo_payload (e : jsval) :
  truthy (errorInfo_of e) = true -> errorInfo_of e = get e (lit "error").
Proof.
  unfold errorInfo_of.
  destruct (truthy e && truthy (get e (lit "error"))); [reflexivity|discriminate].
Qed.

Section StreamProperties.

Variable JSON_stringify : jsval -> jstring.
Variable model : jsval.

(** A turn of the loop appends the chunks of its event, which depend on the
    event and on the tracked output alone. *)
Lemma on_event_appends (e : jsval) (st : stream_state) :
  written (fst (on_event JSON_stringify model e st))
  = written st ++ chunks_of_event JSON_stringify model e (previousOutput st).
Proof.
  unfold chunks_of_event, on_event. simpl.
  destruct (truthy (errorInfo_of e)); simpl; [reflexivity|].
  destruct (compute_delta (previousOutput st) (currentOutput_of e)) as [d p].
  simpl.
  destruct (negb (str_eqb d []) || negb (isPartial_of e)); simpl;
    [reflexivity | symmetry; apply app_nil_r].
Qed.

(** An event without an error payload: the turn in one equation. *)
Lemma on_event_no_error (e : jsval) (st : stream_state) :
  no_error e ->
  on_event JSON_stringify model e st =
  ({| previousOutput := currentOutput_of e;
      written :=
        if negb (str_eqb (fst (compute_delta (previousOutput st) (currentOutput_of e))) [])
           || negb (isPartial_of e)
        then written st ++
               [ContentChunk model
                  (fst (compute_delta (previousOutput st) (currentOutput_of e)))
                  (finish_reason_of e)]
        else written st |}, Next).
Proof.
  unfold no_error. intro H. unfold on_event. rewrite H.
  destruct (compute_delta (previousOutput st) (currentOutput_of e)) as [d p].
  reflexivity.
Qed.

(** An event with an error payload: the turn in one equation. *)
Lemma on_event_error (e : jsval) (st : stream_state) :
  truthy (errorInfo_of e) = true ->
  on_event JSON_stringify model e st =
  ({| previousOutput := previousOutput st;
      written := written st ++
        [ErrorChunk model
           (lit "Fal Stream Error: " ++ JSON_stringify (get e (lit "error")))] |},
   Break).
Proof.
  intro H. unfold on_event. rewrite H. rewrite (errorInfo_payload e H). reflexivity.
Qed.

(** Events without error payloads are all consumed, each adds content chunks
    only, and the loop goes on behind them. *)
Lemma for_await_no_errors (before rest : list jsval) (st : stream_state) :
  Forall no_error before ->
  for_await JSON_stringify model (before ++ rest) st
  = for_await JSON_stringify model rest
      (fst (for_await JSON_stringify model before st))
  /\ exists chunks,
       written (fst (for_await JSON_stringify model before st)) = written st ++ chunks
       /\ forallb is_content_chunk chunks = true.
Proof.
  revert st. induction before as [|e before IH]; intros st Hall.
  - simpl. split; [reflexivity|]. exists []. rewrite app_nil_r. auto.
  - inversion Hall as [|? ? He Hrest]; subst.
    simpl. rewrite (on_event_no_error e st He).
    destruct (IH {| previousOutput := currentOutput_of e;
                    written :=
                      if negb (str_eqb (fst (compute_delta (previousOutput st)
                                               (currentOutput_of e))) [])
                         || negb (isPartial_of e)
                      then written st ++
                             [ContentChunk model
                                (fst (compute_delta (previousOutput st)
                                        (currentOutput_of e)))
                                (finish_reason_of e)]
                      else written st |} Hrest) as [Heq [chunks [Hw Hc]]].
    split; [exact Heq|].
    rewrite Hw. simpl written.
    destruct (negb (str_eqb (fst (compute_delta (previousOutput st)
                                    (currentOutput_of e))) [])
              || negb (isPartial_of e)).
    + eexists. rewrite <- app_assoc. split; [reflexivity|]. simpl. exact Hc.
    + exists chunks. auto.
Qed.

(** The delta suffix law along the loop: while the deltas written so far make
    up the tracked output and the coming snapshots extend one another, they
    still do at the end, and the tracked output is the last snapshot. *)
Lemma for_await_extending (events : list jsval) (st : stream_state) :
  Forall no_error events ->
  extending (previousOutput st) (List.map currentOutput_of events) ->
  join (delta_texts (written st)) = previousOutput st ->
  let final := fst (for_await JSON_stringify model events st) in
  join (delta_texts (written final)) = previousOutput final
  /\ previousOutput final = last (List.map currentOutput_of events) (previousOutput st).
Proof.
  revert st. induction events as [|e events IH]; intros st Hall Hext Hinv.
  - simpl. auto.
  - inversion Hall as [|? ? He Hrest]; subst.
    simpl in Hext. destruct Hext as [Hstarts Hext].
    cbv zeta. simpl for_await. rewrite (on_event_no_error e st He).
    apply startsWith_iff in Hstarts. destruct Hstarts as [added Hadded].
    set (st' := {| previousOutput := currentOutput_of e;
                   written := _ |}).
    assert (Hinv' : join (delta_texts (written st')) = previousOutput st').
    { unfold st'. simpl. rewrite Hadded, compute_delta_extension. simpl fst.
      destruct (negb (str_eqb added []) || negb (isPartial_of e)) eqn:Hemit.
      - rewrite delta_texts_app, join_app, Hinv. simpl.
        rewrite app_nil_r. reflexivity.
      - apply orb_false_iff in Hemit. destruct Hemit as [Hd _].
        apply negb_false_iff, str_eqb_nil in Hd. subst added.
        rewrite app_nil_r. exact Hinv. }
    destruct (IH st' Hrest Hext Hinv') as [H1 H2].
    split; [exact H1|].
    rewrite H2. simpl previousOutput. simpl List.map.
    symmetry. apply last_cons_default.
Qed.

(** C3. Delta suffix law: for every sequence of events without error payloads
    whose snapshots each extend the one before, the stream is content chunks
    followed by the done frame, and the delta texts of its chunks joined in
    order are the last snapshot; and the outputs [Hi], [Hi there],
    [Hi there!] (partial, partial, final) give the deltas [Hi], [ there],
    [!], the last with finish reason [stop], then the done frame. *)
Theorem delta_suffix_law :
  (forall events : list jsval,
     Forall no_error events ->
     extending [] (List.map currentOutput_of events) ->
     join (delta_texts (stream_frames JSON_stringify model events))
       = last (List.map currentOutput_of events) []
     /\ exists chunks,
          stream_frames JSON_stringify model events = chunks ++ [DoneFrame]
          /\ forallb is_content_chunk chunks = true)
  /\ stream_frames JSON_stringify model sample_stream
     = [ContentChunk model (lit "Hi") None;
        ContentChunk model (lit " there") None;
        ContentChunk model (lit "!") (Some (lit "stop"));
        DoneFrame]
  /\ delta_texts (stream_frames JSON_stringify model sample_stream)
     = [lit "Hi"; lit " there"; lit "!"].
Proof.
  split; [|split; reflexivity].
  intros events Hall Hext. unfold stream_frames.
  destruct (for_await_extending events {| previousOutput := []; written := [] |}
              Hall Hext eq_refl) as [Hsum Hlast].
  split.
  - rewrite delta_texts_app, join_app, Hsum, Hlast. simpl.
    apply app_nil_r.
  - destruct (for_await_no_errors events [] {| previousOutput := []; written := [] |}
                Hall) as [_ [chunks [Hw Hc]]].
    exists chunks. simpl in Hw. rewrite Hw. auto.
Qed.

(** C5. Non-monotonic recovery: for every event without an error payload
    whose snapshot is non-empty and does not extend the tracked output, the
    event emits one chunk whose delta is the whole snapshot, the tracked
    output becomes the snapshot, and the rest of the stream is processed from
    that state, so later deltas are relative to the snapshot. *)
Theorem non_monotonic_recovery (e : jsval) (st : stream_state) (rest : list jsval) :
  no_error e ->
  currentOutput_of e <> [] ->
  startsWith (currentOutput_of e) (previousOutput st) = false ->
  let st' := {| previousOutput := currentOutput_of e;
                written := written st ++
                  [ContentChunk model (currentOutput_of e) (finish_reason_of e)] |} in
  chunks_of_event JSON_stringify model e (previousOutput st)
    = [ContentChunk model (currentOutput_of e) (finish_reason_of e)]
  /\ on_event JSON_stringify model e st = (st', Next)
  /\ for_await JSON_stringify model (e :: rest) st
     = for_await JSON_stringify model rest st'.
Proof.
  intros He Hne Hmis. cbv zeta.
  assert (Hstep : on_event JSON_stringify model e st
                  = ({| previousOutput := currentOutput_of e;
                        written := written st ++
                          [ContentChunk model (currentOutput_of e)
                             (finish_reason_of e)] |}, Next)).
  { rewrite (on_event_no_error e st He).
    rewrite (compute_delta_mismatch _ _ Hmis Hne). simpl fst.
    replace (str_eqb (currentOutput_of e) []) with false; [reflexivity|].
    symmetry. destruct (str_eqb (currentOutput_of e) []) eqn:E; [|reflexivity].
    apply str_eqb_nil in E. contradiction. }
  split; [|split].
  - pose proof (on_event_appends e st) as Happ. rewrite Hstep in Happ.
    simpl in Happ. apply app_inv_head in Happ. symmetry. exact Happ.
  - exact Hstep.
  - simpl for_await. rewrite Hstep. reflexivity.
Qed.

(** C6, as the code has it. For every event at most one chunk is written. An
    event with an error payload writes the error chunk. An event without one
    writes a chunk exactly when its delta is non-empty or its partial flag is
    the boolean false, and that chunk carries the delta; in particular an event
    flagged final writes exactly one chunk, with finish reason [stop], even
    when its delta is empty. *)
Theorem one_chunk_per_event (e : jsval) (previous : jstring) :
  let chunks := chunks_of_event JSON_stringify model e previous in
  let delta := fst (compute_delta previous (currentOutput_of e)) in
  (List.length chunks <= 1)%nat
  /\ (truthy (errorInfo_of e) = true ->
      chunks = [ErrorChunk model
                  (lit "Fal Stream Error: " ++ JSON_stringify (get e (lit "error")))])
  /\ (no_error e ->
      (chunks <> [] <-> delta <> [] \/ flagged_final e)
      /\ (chunks = [] \/ chunks = [ContentChunk model delta (finish_reason_of e)])
      /\ (flagged_final e -> chunks = [ContentChunk model delta (Some (lit "stop"))])).
Proof.
  cbv zeta. unfold chunks_of_event.
  destruct (truthy (errorInfo_of e)) eqn:Herr.
  - rewrite (on_event_error e _ Herr). simpl.
    split; [lia|split; [reflexivity|]].
    unfold no_error. rewrite Herr. discriminate.
  - rewrite (on_event_no_error e _ Herr). simpl.
    set (delta := fst (compute_delta previous (currentOutput_of e))).
    assert (Hd : negb (str_eqb delta []) = true <-> delta <> []).
    { rewrite negb_true_iff. split.
      - intros H E. apply str_eqb_nil in E. congruence.
      - intro H. destruct (str_eqb delta []) eqn:E; [|reflexivity].
        apply str_eqb_nil in E. contradiction. }
    assert (Hf : negb (isPartial_of e) = true <-> flagged_final e).
    { rewrite negb_true_iff. apply isPartial_false_iff. }
    destruct (negb (str_eqb delta []) || negb (isPartial_of e)) eqn:Hemit.
    + split; [simpl; lia|split; [discriminate|]]. intros _.
      split; [|split].
      * split; [intros _|intros _; discriminate].
        apply orb_true_iff in Hemit. tauto.
      * right. reflexivity.
      * intro Hfin. apply isPartial_false_iff in Hfin.
        unfold finish_reason_of. rewrite Hfin. reflexivity.
    + split; [simpl; lia|split; [discriminate|]]. intros _.
      apply orb_false_iff in Hemit. destruct Hemit as [H1 H2].
      split; [|split].
      * split; [intro H; contradiction|].
        intros [H|H]; [apply Hd in H|apply Hf in H]; congruence.
      * left. reflexivity.
      * intro Hfin. apply Hf in Hfin. congruence.
Qed.

(** C7. For every event that carries an error payload: the turn writes one
    error chunk whose content is the error payload serialised behind
    [Fal Stream Error: ] and breaks out of the loop, the events after it are
    never pulled, and, after events without error payloads, the stream is
    their content chunks, that one error chunk and then the done frame. *)
Theorem error_event_ends_stream (before after : list jsval) (e : jsval)
        (st : stream_state) :
  truthy (errorInfo_of e) = true ->
  Forall no_error before ->
  let error_chunk :=
    ErrorChunk model (lit "Fal Stream Error: " ++ JSON_stringify (get e (lit "error"))) in
  on_event JSON_stringify model e st
    = ({| previousOutput := previousOutput st;
          written := written st ++ [error_chunk] |}, Break)
  /\ snd (for_await JSON_stringify model (e :: after) st) = after
  /\ snd (for_await JSON_stringify model (before ++ e :: after)
            {| previousOutput := []; written := [] |}) = after
  /\ exists chunks,
       forallb is_content_chunk chunks = true
       /\ stream_frames JSON_stringify model (before ++ e :: after)
          = chunks ++ [error_chunk; DoneFrame].
Proof.
  intros Herr Hbefore. cbv zeta.
  split; [apply on_event_error; exact Herr|].
  split; [simpl; rewrite (on_event_error e st Herr); reflexivity|].
  destruct (for_await_no_errors before (e :: after)
              {| previousOutput := []; written := [] |} Hbefore)
    as [Heq [chunks [Hw Hc]]].
  split.
  - rewrite Heq. simpl. rewrite (on_event_error e _ Herr). reflexivity.
  - exists chunks. split; [exact Hc|].
    unfold stream_frames. rewrite Heq. simpl for_await.
    rewrite (on_event_error e _ Herr). simpl. rewrite Hw. simpl.
    rewrite <- app_assoc. reflexivity.
Qed.

(** C10. For every event without an error payload whose output is absent,
    not a string or the empty string, while the tracked output is non-empty:
    the delta is empty, so a chunk is written only when the event is final;
    the tracked output becomes the empty string; and the delta of the next
    event (without an error payload) is its whole output, written as a chunk
    when that output is non-empty. *)
Theorem missing_output_resets (e next : jsval) (st : stream_state) :
  no_error e ->
  no_output_text e ->
  previousOutput st <> [] ->
  let st' := fst (on_event JSON_stringify model e st) in
  fst (compute_delta (previousOutput st) (currentOutput_of e)) = []
  /\ on_event JSON_stringify model e st
     = ({| previousOutput := [];
           written := if isPartial_of e then written st
                      else written st ++ [ContentChunk model [] (Some (lit "stop"))] |},
        Next)
  /\ previousOutput st' = []
  /\ (no_error next ->
      fst (compute_delta (previousOutput st') (currentOutput_of next))
        = currentOutput_of next
      /\ (currentOutput_of next <> [] ->
          chunks_of_event JSON_stringify model next (previousOutput st')
            = [ContentChunk model (currentOutput_of next) (finish_reason_of next)])).
Proof.
  intros He Hout Hprev. cbv zeta.
  pose proof (no_output_text_empty e Hout) as Hcur.
  assert (Hstep : on_event JSON_stringify model e st
     = ({| previousOutput := [];
           written := if isPartial_of e then written st
                      else written st ++ [ContentChunk model [] (Some (lit "stop"))] |},
        Next)).
  { rewrite (on_event_no_error e st He). rewrite Hcur, compute_delta_empty.
    unfold finish_reason_of. simpl. destruct (isPartial_of e); reflexivity. }
  rewrite Hstep. simpl fst. simpl previousOutput.
  split; [rewrite Hcur; apply compute_delta_empty|].
  split; [reflexivity|]. split; [reflexivity|].
  intro Hnext. split; [apply compute_delta_fresh|].
  intro Hne. unfold chunks_of_event.
  rewrite (on_event_no_error next _ Hnext).
  cbn [fst written previousOutput]. rewrite compute_delta_fresh.
  replace (str_eqb (currentOutput_of next) []) with false; [reflexivity|].
  symmetry. destruct (str_eqb (currentOutput_of next) []) eqn:E; [|reflexivity].
  apply str_eqb_nil in E. contradiction.
Qed.

(** Whatever the loop is given, it writes content chunks and then at most one
    error chunk. *)
Lemma for_await_shape (events : list jsval) (st : stream_state) :
  exists chunks,
    forallb is_content_chunk chunks = true
    /\ (written (fst (for_await JSON_stringify model events st)) = written st ++ chunks
        \/ exists content,
             written (fst (for_await JSON_stringify model events st))
             = written st ++ chunks ++ [ErrorChunk model content]).
Proof.
  revert st. induction events as [|e events IH]; intro st.
  - exists []. split; [reflexivity|]. left. simpl. symmetry. apply app_nil_r.
  - simpl for_await. destruct (truthy (errorInfo_of e)) eqn:Herr.
    + rewrite (on_event_error e st Herr). exists []. split; [reflexivity|].
      right. eexists. reflexivity.
    + rewrite (on_event_no_error e st Herr).
      set (st' := {| previousOutput := currentOutput_of e; written := _ |}).
      destruct (IH st') as [chunks [Hc Hw]].
      assert (Hst : exists first, forallb is_content_chunk first = true
                                  /\ written st' = written st ++ first).
      { unfold st'. simpl.
        destruct (negb (str_eqb (fst (compute_delta (previousOutput st)
                                        (currentOutput_of e))) [])
                  || negb (isPartial_of e)).
        - eexists. split; [|reflexivity]. reflexivity.
        - exists []. split; [reflexivity|]. symmetry. apply app_nil_r. }
      destruct Hst as [first [Hf Hst]].
      exists (first ++ chunks). split.
      * rewrite forallb_app, Hf, Hc. reflexivity.
      * destruct Hw as [Hw|[content Hw]]; rewrite Hw, Hst.
        -- left. rewrite <- app_assoc. reflexivity.
        -- right. exists content. rewrite <- !app_assoc. reflexivity.
Qed.

(** Every stream that ends without an exception is content chunks, then at
    most one error chunk, then the done frame, and nothing after it. *)
Theorem stream_ends_with_done (events : list jsval) :
  exists chunks,
    forallb is_content_chunk chunks = true
    /\ (stream_frames JSON_stringify model events = chunks ++ [DoneFrame]
        \/ exists content,
             stream_frames JSON_stringify model events
             = chunks ++ [ErrorChunk model content; DoneFrame]).
Proof.
  unfold stream_frames.
  destruct (for_await_shape events {| previousOutput := []; written := [] |})
    as [chunks [Hc Hw]].
  exists chunks. split; [exact Hc|].
  destruct Hw as [Hw|[content Hw]]; rewrite Hw; simpl.
  - left. reflexivity.
  - right. exists content. rewrite <- app_assoc. reflexivity.
Qed.

End StreamProperties.

(* ================================================================== *)
(** * Part VIII. The properties at the sample inputs                   *)
(* ================================================================== *)

(** Recency preservation at [sample_long_history]: the two most recent blocks
    fill the two budgets exactly, the oldest block can be placed nowhere, and
    the result is made of the two most recent blocks. *)
Lemma recency_preservation_at_long_history :
  only_most_recent_placeable
    (remaining_system_limit (fixed_system sample_String sample_long_history))
    (conversation_message_blocks (partition_messages sample_String sample_long_history))
    2
  /\ exists sys pr : list jstring,
       most_recent 2 (conversation_message_blocks
                        (partition_messages sample_String sample_long_history))
       = sys ++ pr
       /\ prompt (convertMessagesToFalPrompt sample_String sample_long_history)
          = trim (List.concat pr)
       /\ system_prompt (convertMessagesToFalPrompt sample_String sample_long_history)
          = trim (List.concat sys).
Proof.
  assert (Hbudget : remaining_system_limit
                      (fixed_system sample_String sample_long_history) = 4800)
    by (vm_compute; reflexivity).
  assert (Hlen : List.length (conversation_message_blocks
                                (partition_messages sample_String sample_long_history))
                 = 3%nat)
    by (vm_compute; reflexivity).
  assert (Honly : only_most_recent_placeable
            (remaining_system_limit (fixed_system sample_String sample_long_history))
            (conversation_message_blocks
               (partition_messages sample_String sample_long_history)) 2).
  { split.
    - split; [rewrite Hlen; lia|].
      exists (firstn 1 (most_recent 2 (conversation_message_blocks
                (partition_messages sample_String sample_long_history)))),
             (skipn 1 (most_recent 2 (conversation_message_blocks
                (partition_messages sample_String sample_long_history)))).
      split; [symmetry; apply firstn_skipn|].
      split; apply Z.leb_le; vm_compute; reflexivity.
    - intros K' HK' [Hle [sys [pr [Hsplit [Hsys Hpr]]]]].
      rewrite Hlen in Hle. assert (K' = 3%nat) by lia. subst K'.
      apply (f_equal total) in Hsplit. rewrite total_app in Hsplit.
      assert (Ht : total (most_recent 3 (conversation_message_blocks
                     (partition_messages sample_String sample_long_history))) = 9612)
        by (vm_compute; reflexivity).
      rewrite Ht in Hsplit. rewrite Hbudget in Hsys. unfold PROMPT_LIMIT in Hpr.
      lia. }
  split; [exact Honly|].
  destruct (recency_preservation_of_placeable sample_String sample_long_history 2 Honly)
    as [sys [pr [Hsplit [_ [_ [_ [Hprompt Hsystem]]]]]]].
  exists sys, pr. split; [exact Hsplit|]. split; [exact Hprompt|].
  exact Hsystem.
Defined.

(** Counterexample to C2 as the specification states it: the three blocks of
    [sample_fragmented] are 9000 code units together and the two budgets 9600,
    so all three fit within the combined budgets, and yet the result is made
    of the two most recent alone: the oldest, of the letter [a], is in
    neither text. *)
Lemma combined_budgets_do_not_decide :
  only_most_recent_fit_combined
    (remaining_system_limit (fixed_system sample_String sample_fragmented))
    (conversation_message_blocks (partition_messages sample_String sample_fragmented))
    3
  /\ most_recent 3 (conversation_message_blocks
                      (partition_messages sample_String sample_fragmented))
     = [lit "Human: " ++ repeat 97%N 2991 ++ [LF; LF];
        lit "Human: " ++ repeat 98%N 2991 ++ [LF; LF];
        lit "Human: " ++ repeat 99%N 2991 ++ [LF; LF]]
  /\ system_prompt (convertMessagesToFalPrompt sample_String sample_fragmented)
     = lit "Human: " ++ repeat 98%N 2991
  /\ prompt (convertMessagesToFalPrompt sample_String sample_fragmented)
     = lit "Human: " ++ repeat 99%N 2991.
Proof.
  split; [|split; [|split]]; try (vm_compute; reflexivity).
  split.
  - split; [vm_compute; lia|]. apply Z.leb_le. vm_compute. reflexivity.
  - intros K' HK' [Hle _].
    assert (Hlen : List.length (conversation_message_blocks
                                  (partition_messages sample_String sample_fragmented))
                   = 3%nat) by (vm_compute; reflexivity).
    rewrite Hlen in Hle. lia.
Qed.

(** A turn of the loop on a state whose prompt is full leaves the prompt
    slot as it is. *)
Lemma full_prompt_accepts_nothing :
  let st := {| prompt_history_blocks := [lit "Human: hi"];
               system_prompt_history_blocks := [];
               current_prompt_length := 9;
               current_system_history_length := 0;
               promptFull := true;
               systemHistoryFull := false |} in
  promptFull st = true
  /\ promptFull (fill_body 4800 (lit "Human: older") st) = true
  /\ prompt_history_blocks (fill_body 4800 (lit "Human: older") st)
     = prompt_history_blocks st.
Proof.
  cbv zeta. split; [reflexivity|].
  apply (proj2 (slots_are_contiguous_runs sample_String sample_dialogue)).
  reflexivity.
Defined.

(** The prompt of [sample_dialogue] is non-empty: its most recent block fits. *)
Lemma prompt_nonempty_at_dialogue :
  (exists m, In m sample_dialogue /\ is_conversation_message m = true)
  /\ 0 < PROMPT_LIMIT
  /\ (0 < len (prompt (convertMessagesToFalPrompt sample_String sample_dialogue))
      <-> len (most_recent_block sample_String sample_dialogue) <= PROMPT_LIMIT).
Proof.
  assert (H : exists m, In m sample_dialogue /\ is_conversation_message m = true).
  { exists (chat "user" (lit "D")). split; [|reflexivity].
    simpl. right. right. right. left. reflexivity. }
  split; [exact H|]. split; [reflexivity|].
  apply (prompt_nonempty_iff_last_block_fits sample_String sample_dialogue H).
  reflexivity.
Defined.

(** Counterexample to C4 as the specification states it: [sample_oversized]
    holds a user message, the prompt budget is positive, and the prompt is
    empty, because the block of that message is 4801 code units long. *)
Lemma prompt_empty_for_oversized_message :
  (exists m, In m sample_oversized /\ is_conversation_message m = true)
  /\ 0 < PROMPT_LIMIT
  /\ len (most_recent_block sample_String sample_oversized) = 4801
  /\ prompt (convertMessagesToFalPrompt sample_String sample_oversized) = []
  /\ system_prompt (convertMessagesToFalPrompt sample_String sample_oversized) = [].
Proof.
  split.
  - exists (chat "user" (repeat 97%N 4792)). split; [left|]; reflexivity.
  - split; [reflexivity|]. split; [|split]; vm_compute; reflexivity.
Qed.

(** The delta suffix law at [sample_stream]. *)
Lemma delta_suffix_law_at_sample :
  Forall no_error sample_stream
  /\ extending [] (List.map currentOutput_of sample_stream)
  /\ join (delta_texts (stream_frames sample_stringify JNull sample_stream))
     = last (List.map currentOutput_of sample_stream) [].
Proof.
  assert (H1 : Forall no_error sample_stream)
    by (repeat constructor).
  assert (H2 : extending [] (List.map currentOutput_of sample_stream))
    by (simpl; repeat split; reflexivity).
  split; [exact H1|]. split; [exact H2|].
  exact (proj1 (proj1 (delta_suffix_law sample_stringify JNull) sample_stream H1 H2)).
Defined.

(** Non-monotonic recovery at a snapshot [Bye] after the tracked [Hi]. *)
Lemma non_monotonic_recovery_at_sample :
  let e := event "Bye" true in
  let st := {| previousOutput := lit "Hi"; written := [] |} in
  no_error e
  /\ currentOutput_of e <> []
  /\ startsWith (currentOutput_of e) (previousOutput st) = false
  /\ chunks_of_event sample_stringify JNull e (previousOutput st)
     = [ContentChunk JNull (lit "Bye") None].
Proof.
  cbv zeta.
  assert (H1 : no_error (event "Bye" true)) by reflexivity.
  assert (H2 : currentOutput_of (event "Bye" true) <> []) by (vm_compute; discriminate).
  assert (H3 : startsWith (currentOutput_of (event "Bye" true)) (lit "Hi") = false)
    by reflexivity.
  split; [exact H1|]. split; [exact H2|]. split; [exact H3|].
  exact (proj1 (non_monotonic_recovery sample_stringify JNull (event "Bye" true)
                  {| previousOutput := lit "Hi"; written := [] |}
                  [event "Bye!" false] H1 H2 H3)).
Defined.

(** An event flagged final writes its one chunk although it adds no text. *)
Lemma final_event_is_flushed :
  let e := event "Hi" false in
  no_error e
  /\ flagged_final e
  /\ chunks_of_event sample_stringify JNull e (lit "Hi")
     = [ContentChunk JNull [] (Some (lit "stop"))].
Proof.
  cbv zeta.
  assert (H1 : no_error (event "Hi" false)) by reflexivity.
  assert (H2 : flagged_final (event "Hi" false)) by (split; reflexivity).
  split; [exact H1|]. split; [exact H2|].
  exact (proj2 (proj2 (proj2 (proj2 (one_chunk_per_event sample_stringify JNull
                                       (event "Hi" false) (lit "Hi"))) H1)) H2).
Defined.

(** Counterexample to C6 as the specification states it: the last event of
    [sample_unflagged_stream] finds
    [Hi] tracked, adds no text and is not flagged final, so it writes no chunk
    at all; the stream is one chunk and the done frame. *)
Lemma last_event_without_chunk :
  last sample_unflagged_stream JNull = event "Hi" true
  /\ previousOutput (fst (for_await sample_stringify JNull [event "Hi" true]
                            {| previousOutput := []; written := [] |})) = lit "Hi"
  /\ chunks_of_event sample_stringify JNull (event "Hi" true) (lit "Hi") = []
  /\ stream_frames sample_stringify JNull sample_unflagged_stream
     = [ContentChunk JNull (lit "Hi") None; DoneFrame].
Proof. repeat split; reflexivity. Qed.

(** An error event in the middle of a stream ends it. *)
Lemma error_event_ends_sample_stream :
  let before := [event "Hi" true] in
  let e := error_event "boom" in
  let after := [event "Hi there" false] in
  truthy (errorInfo_of e) = true
  /\ Forall no_error before
  /\ snd (for_await sample_stringify JNull (before ++ e :: after)
            {| previousOutput := []; written := [] |}) = after
  /\ stream_frames sample_stringify JNull (before ++ e :: after)
     = [ContentChunk JNull (lit "Hi") None;
        ErrorChunk JNull (lit "Fal Stream Error: " ++ [34%N] ++ lit "boom" ++ [34%N]);
        DoneFrame].
Proof.
  cbv zeta.
  assert (H1 : truthy (errorInfo_of (error_event "boom")) = true) by reflexivity.
  assert (H2 : Forall no_error [event "Hi" true]) by (repeat constructor).
  split; [exact H1|]. split; [exact H2|].
  split.
  - exact (proj1 (proj2 (proj2
             (error_event_ends_stream sample_stringify JNull [event "Hi" true]
                [event "Hi there" false] (error_event "boom")
                {| previousOutput := []; written := [] |} H1 H2)))).
  - reflexivity.
Defined.

(** An event without output after the tracked [Hi] resets the tracking, and
    the next event is written in full. *)
Lemma missing_output_resets_at_sample :
  let e := JObject [] in
  let next := event "Hi again" true in
  let st := {| previousOutput := lit "Hi"; written := [] |} in
  no_error e
  /\ no_output_text e
  /\ previousOutput st <> []
  /\ no_error next
  /\ currentOutput_of next <> []
  /\ on_event sample_stringify JNull e st
     = ({| previousOutput := []; written := [] |}, Next)
  /\ chunks_of_event sample_stringify JNull next
       (previousOutput (fst (on_event sample_stringify JNull e st)))
     = [ContentChunk JNull (lit "Hi again") None].
Proof.
  cbv zeta.
  assert (H1 : no_error (JObject [])) by reflexivity.
  assert (H2 : no_output_text (JObject [])) by exact I.
  assert (H3 : previousOutput {| previousOutput := lit "Hi"; written := [] |} <> [])
    by (vm_compute; discriminate).
  assert (H4 : no_error (event "Hi again" true)) by reflexivity.
  assert (H5 : currentOutput_of (event "Hi again" true) <> [])
    by (vm_compute; discriminate).
  pose proof (missing_output_resets sample_stringify JNull (JObject [])
                (event "Hi again" true)
                {| previousOutput := lit "Hi"; written := [] |} H1 H2 H3) as H.
  cbv zeta in H. destruct H as [_ [Hstep [_ Hnext]]].
  split; [exact H1|]. split; [exact H2|]. split; [exact H3|].
  split; [exact H4|]. split; [exact H5|].
  split; [exact Hstep|].
  exact (proj2 (Hnext H4) H5).
Defined.

(** Placing blocks whole can leave budget unused: the three blocks of
    [sample_fragmented] are 9000 code units together, within the 9600 of the
    two budgets, and yet the oldest is not kept, since no slot has room for
    two of them. *)
Lemma whole_blocks_leave_budget_unused :
  total (conversation_message_blocks
           (partition_messages sample_String sample_fragmented)) = 9000
  /\ PROMPT_LIMIT
     + remaining_system_limit (fixed_system sample_String sample_fragmented) = 9600
  /\ List.length (prompt_history_blocks (filled sample_String sample_fragmented)) = 1%nat
  /\ List.length (system_prompt_history_blocks
                    (filled sample_String sample_fragmented)) = 1%nat
  /\ system_prompt_history_blocks (filled sample_String sample_fragmented)
     ++ prompt_history_blocks (filled sample_String sample_fragmented)
     = most_recent 2
         (conversation_message_blocks
            (partition_messages sample_String sample_fragmented)).
Proof. repeat split; vm_compute; reflexivity. Qed.

(* ================================================================== *)
(** * Part IX. More of the prompt composer                             *)
(* ================================================================== *)

Lemma trimStart_white (w s : jstring) :
  forallb is_white_space w = true -> trimStart (w ++ s) = trimStart s.
Proof.
  induction w as [|c w IH]; simpl; [reflexivity|].
  intro H. apply andb_true_iff in H. destruct H as [Hc Hw].
  rewrite Hc. apply IH, Hw.
Qed.

(** What [trimStart] drops is white space. *)
Lemma trimStart_dropped (s : jstring) :
  exists w, s = w ++ trimStart s /\ forallb is_white_space w = true.
Proof.
  induction s as [|c s IH]; simpl.
  - exists []. auto.
  - destruct (is_white_space c) eqn:Hc.
    + destruct IH as [w [Hs Hw]]. exists (c :: w). simpl.
      rewrite Hc, Hw. split; [congruence|reflexivity].
    + exists []. auto.
Qed.

(** What [trimStart] keeps is empty or starts with a code unit that is not
    white space. *)
Lemma trimStart_head (s : jstring) :
  trimStart s = [] \/ exists c u, trimStart s = c :: u /\ is_white_space c = false.
Proof.
  induction s as [|c s IH]; simpl; [left; reflexivity|].
  destruct (is_white_space c) eqn:Hc; [exact IH|].
  right. exists c, s. auto.
Qed.

Lemma trimStart_fixed (c : code_unit) (u : jstring) :
  is_white_space c = false -> trimStart (c :: u) = c :: u.
Proof. intro H. simpl. rewrite H. reflexivity. Qed.

Lemma trimStart_idempotent (s : jstring) : trimStart (trimStart s) = trimStart s.
Proof.
  destruct (trimStart_head s) as [H|[c [u [H Hc]]]]; rewrite H;
    [reflexivity | apply trimStart_fixed, Hc].
Qed.

(** Trimming at the start sees nothing of what follows a text it keeps part
    of. *)
Lemma trimStart_app (s x : jstring) :
  trimStart s <> [] -> trimStart (s ++ x) = trimStart s ++ x.
Proof.
  intro Hne. destruct (trimStart_dropped s) as [w [Hs Hw]].
  rewrite Hs at 1. rewrite <- app_assoc, trimStart_white by exact Hw.
  destruct (trimStart_head s) as [H|[c [u [H Hc]]]]; [contradiction|].
  rewrite H. simpl. rewrite Hc. reflexivity.
Qed.

Lemma trimEnd_app (x s : jstring) :
  trimEnd s <> [] -> trimEnd (x ++ s) = x ++ trimEnd s.
Proof.
  unfold trimEnd. intro Hne. rewrite rev_app_distr, trimStart_app.
  - rewrite rev_app_distr, rev_involutive. reflexivity.
  - intro H. rewrite H in Hne. apply Hne. reflexivity.
Qed.

Lemma trimEnd_line_feeds (s : jstring) : trimEnd (s ++ [LF; LF]) = trimEnd s.
Proof. unfold trimEnd. rewrite rev_app_distr. reflexivity. Qed.

Lemma trimEnd_length (s : jstring) : len (trimEnd s) <= len s.
Proof.
  unfold trimEnd, len. rewrite length_rev.
  pose proof (trimStart_length (rev s)) as H. rewrite length_rev in H. lia.
Qed.

(** A trimmed text is empty or has no white space at either end. *)
Lemma trim_edges (s : jstring) :
  trim s = []
  \/ (exists c u, trim s = c :: u /\ is_white_space c = false)
     /\ (exists u c, trim s = u ++ [c] /\ is_white_space c = false).
Proof.
  unfold trim.
  destruct (trimStart_head s) as [H|[c [u [H Hc]]]]; rewrite H.
  - left. reflexivity.
  - right. split.
    + destruct (trim_starts c u Hc) as [v Hv]. unfold trim in Hv.
      rewrite trimStart_fixed in Hv by exact Hc. exists c, v. auto.
    + unfold trimEnd.
      destruct (trimStart_head (rev (c :: u))) as [E|[d [v [E Hd]]]].
      * exfalso. destruct (trimStart_keeps (rev u) [] c Hc) as [x Hx].
        simpl rev in E. rewrite Hx in E. destruct x; discriminate.
      * rewrite E. simpl rev. exists (rev v), d. auto.
Qed.

(** A text with no white space at either end is its own trim. *)
Lemma trim_fixed (c d : code_unit) (u v : jstring) :
  is_white_space c = false -> is_white_space d = false ->
  c :: u = v ++ [d] -> trim (c :: u) = c :: u.
Proof.
  intros Hc Hd E. unfold trim. rewrite trimStart_fixed by exact Hc.
  unfold trimEnd. rewrite E, rev_app_distr. simpl rev at 2. simpl app.
  rewrite trimStart_fixed by exact Hd.
  change (d :: rev v) with ([d] ++ rev v).
  rewrite rev_app_distr, rev_involutive. reflexivity.
Qed.

Lemma trim_idempotent (s : jstring) : trim (trim s) = trim s.
Proof.
  destruct (trim_edges s) as [H|[[c [u [H Hc]]] [v [d [E Hd]]]]].
  - rewrite H. reflexivity.
  - rewrite H. rewrite H in E. exact (trim_fixed c d u v Hc Hd E).
Qed.

(** Trimming a text that ends in two line feeds loses at least those. *)
Lemma len_trim_line_feeds (s : jstring) : len (trim (s ++ [LF; LF])) <= len s.
Proof.
  unfold trim. destruct (trimStart s) as [|c u] eqn:Hs.
  - destruct (trimStart_dropped s) as [w [E Hw]]. rewrite Hs, app_nil_r in E.
    subst w. rewrite <- (app_nil_r (s ++ [LF; LF])).
    rewrite trimStart_white.
    + simpl. apply len_nonneg.
    + rewrite forallb_app, Hw. reflexivity.
  - rewrite trimStart_app by (rewrite Hs; discriminate).
    rewrite trimEnd_line_feeds, Hs.
    pose proof (trimEnd_length (c :: u)) as H1.
    pose proof (trimStart_length s) as H2. rewrite Hs in H2.
    unfold len in *. lia.
Qed.

Section ComposerEdges.

Variable String_of_other : jsval -> jstring.

(** Every block ends with the two line feeds of its template. *)
Lemma block_ends (messages : list message) (b : jstring) :
  In b (conversation_message_blocks (partition_messages String_of_other messages)) ->
  exists u, b = u ++ [LF; LF].
Proof.
  intro H. destruct (block_origin String_of_other messages b H) as [m [_ [_ [_ Hb]]]].
  unfold conversation_block in Hb.
  destruct (role_is m "system"); [discriminate|].
  destruct (role_is m "user").
  - injection Hb as <-. exists (lit "Human: " ++ content_text String_of_other m).
    rewrite <- app_assoc. reflexivity.
  - destruct (role_is m "assistant"); [|discriminate].
    injection Hb as <-. exists (lit "Assistant: " ++ content_text String_of_other m).
    rewrite <- app_assoc. reflexivity.
Qed.

(** Joining and trimming a run of blocks of the conversation loses at least
    the two line feeds of its last block. *)
Lemma len_trim_join (messages : list message) (run : list jstring) :
  incl run (conversation_message_blocks (partition_messages String_of_other messages)) ->
  run <> [] ->
  len (trim (join run)) <= total run - 2.
Proof.
  intros Hincl Hne. destruct (exists_last Hne) as [init [b Hrun]]. subst run.
  destruct (block_ends messages b) as [u Hu].
  { apply Hincl. apply in_or_app. right. left. reflexivity. }
  rewrite join_app, total_app. unfold join at 2. simpl List.concat.
  rewrite app_nil_r, Hu, app_assoc.
  pose proof (len_trim_line_feeds (join init ++ u)) as H.
  rewrite len_app, len_join in H. simpl total. rewrite len_app.
  change (len [LF; LF]) with 2. lia.
Qed.

Lemma prompt_slot_incl (messages : list message) :
  incl (prompt_history_blocks (filled String_of_other messages))
       (conversation_message_blocks (partition_messages String_of_other messages)).
Proof.
  destruct (fill_decomposition
              (remaining_system_limit (fixed_system String_of_other messages))
              (conversation_message_blocks
                 (partition_messages String_of_other messages))) as [older Hold].
  intros b Hb. rewrite Hold. apply in_or_app. right. apply in_or_app. right.
  exact Hb.
Qed.

Lemma system_slot_incl (messages : list message) :
  incl (system_prompt_history_blocks (filled String_of_other messages))
       (conversation_message_blocks (partition_messages String_of_other messages)).
Proof.
  destruct (fill_decomposition
              (remaining_system_limit (fixed_system String_of_other messages))
              (conversation_message_blocks
                 (partition_messages String_of_other messages))) as [older Hold].
  intros b Hb. rewrite Hold. apply in_or_app. right. apply in_or_app. left.
  exact Hb.
Qed.

Lemma system_prompt_trimmed (messages : list message) :
  trim (system_prompt (convertMessagesToFalPrompt String_of_other messages))
  = system_prompt (convertMessagesToFalPrompt String_of_other messages).
Proof.
  simpl system_prompt. unfold assemble, fixed_system, system_prompt_history_content.
  set (fixed := trim (truncate_system _)).
  set (history := trim (join _)).
  destruct (0 <? len fixed) eqn:Hf; destruct (0 <? len history) eqn:Hh; cbn [andb].
  - apply Z.ltb_lt in Hf, Hh.
    destruct (trim_edges (truncate_system (fixed_system_prompt_content
                (partition_messages String_of_other messages))))
      as [E|[[c [u [E Hc]]] _]]; fold fixed in E;
      [rewrite E in Hf; unfold len in Hf; simpl in Hf; lia|].
    destruct (trim_edges (join (system_prompt_history_blocks
                                  (filled String_of_other messages))))
      as [E'|[_ [v [d [E' Hd]]]]]; fold history in E';
      [rewrite E' in Hh; unfold len in Hh; simpl in Hh; lia|].
    rewrite E. simpl app.
    apply (trim_fixed c d (u ++ SEPARATOR ++ history) (fixed ++ SEPARATOR ++ v) Hc Hd).
    rewrite E' at 1. rewrite E. simpl app. rewrite <- !app_assoc. reflexivity.
  - apply trim_idempotent.
  - apply trim_idempotent.
  - reflexivity.
Qed.

(** The two texts of the result need no further trim, as the comments of
    lines 191 and 192 say: for every message list, trimming [prompt] or
    [system_prompt] changes nothing. *)
Theorem result_is_trimmed (messages : list message) :
  let result := convertMessagesToFalPrompt String_of_other messages in
  trim (prompt result) = prompt result
  /\ trim (system_prompt result) = system_prompt result.
Proof.
  cbv zeta. split.
  - simpl prompt. unfold final_prompt. apply trim_idempotent.
  - apply system_prompt_trimmed.
Qed.


Lemma len_prompt_sharp (messages : list message) :
  len (prompt (convertMessagesToFalPrompt String_of_other messages))
    <= PROMPT_LIMIT - 2.
Proof.
  simpl prompt. unfold final_prompt.
    destruct (prompt_history_blocks (filled String_of_other messages)) as [|b pb] eqn:E.
    + unfold PROMPT_LIMIT. vm_compute. discriminate.
    + rewrite <- E.
      pose proof (len_trim_join messages _ (prompt_slot_incl messages)) as H.
      rewrite E in H at 1. specialize (H ltac:(discriminate)).
      pose proof (fill_prompt_total
                    (remaining_system_limit (fixed_system String_of_other messages))
                    (conversation_message_blocks
                       (partition_messages String_of_other messages))) as Ht.
      fold (filled String_of_other messages) in Ht. lia.
Qed.

Lemma len_system_prompt_sharp (messages : list message) :
  len (system_prompt (convertMessagesToFalPrompt String_of_other messages))
    <= SYSTEM_PROMPT_LIMIT + 23.
Proof.
  simpl system_prompt. unfold system_prompt_history_content.
    pose proof (len_fixed_system String_of_other messages) as Hfix.
    set (fixed := fixed_system String_of_other messages) in *.
    assert (Hhist : system_prompt_history_blocks (filled String_of_other messages) <> []
                    -> len (trim (join (system_prompt_history_blocks
                                          (filled String_of_other messages))))
                       <= remaining_system_limit fixed - 2).
    { intro Hne.
      pose proof (len_trim_join messages _ (system_slot_incl messages) Hne) as H.
      pose proof (fill_system_total (remaining_system_limit fixed)
                    (conversation_message_blocks
                       (partition_messages String_of_other messages))
                    (remaining_nonneg fixed)) as Ht.
      unfold filled in *. subst fixed. lia. }
    destruct (system_prompt_history_blocks (filled String_of_other messages))
      as [|b sb] eqn:E.
    + change (trim (join [])) with (@nil code_unit). unfold assemble.
      pose proof (len_nonneg fixed).
      destruct (0 <? len fixed); cbn [andb];
        change (0 <? len []) with false; cbv iota.
      * lia.
      * unfold len, SYSTEM_PROMPT_LIMIT. simpl. lia.
    + specialize (Hhist ltac:(discriminate)).
      set (history := trim (join (b :: sb))) in *.
      pose proof (len_nonneg history). pose proof (len_nonneg fixed).
      assert (Hsep : len SEPARATOR = 29) by reflexivity.
      unfold assemble.
      unfold remaining_system_limit, space_occupied_by_fixed_system in Hhist.
      destruct (0 <? len fixed) eqn:Hf; destruct (0 <? len history) eqn:Hh;
        cbn [andb].
      * apply Z.ltb_lt in Hh. rewrite !len_app, Hsep. lia.
      * lia.
      * lia.
      * change (len []) with 0. unfold SYSTEM_PROMPT_LIMIT. lia.
Qed.

(** The sharp lengths: for every message list [prompt] is at most
    [PROMPT_LIMIT - 2] long and [system_prompt] at most
    [SYSTEM_PROMPT_LIMIT + 23], since the 4 code units line 114 reserves stand
    for a separator of 29 and a trim takes the last two line feeds; and
    [sample_full_slots] reaches both, so [system_prompt] can be longer than
    [SYSTEM_PROMPT_LIMIT]. *)
Theorem sharp_lengths (messages : list message) :
  len (prompt (convertMessagesToFalPrompt String_of_other messages))
    <= PROMPT_LIMIT - 2
  /\ len (system_prompt (convertMessagesToFalPrompt String_of_other messages))
     <= SYSTEM_PROMPT_LIMIT + 23
  /\ len (prompt (convertMessagesToFalPrompt String_of_other sample_full_slots))
     = PROMPT_LIMIT - 2
  /\ len (system_prompt (convertMessagesToFalPrompt String_of_other sample_full_slots))
     = SYSTEM_PROMPT_LIMIT + 23.
Proof.
  split; [apply len_prompt_sharp|].
  split; [apply len_system_prompt_sharp|].
  split; vm_compute; reflexivity.
Qed.

(** When the fixed system text is within 4 code units of
    [SYSTEM_PROMPT_LIMIT], the system slot has no room for history and
    [system_prompt] is the fixed text alone, whatever the conversation. *)
Theorem crowded_system_text_stands_alone (messages : list message) :
  SYSTEM_PROMPT_LIMIT - 4 <= len (fixed_system String_of_other messages) ->
  system_prompt (convertMessagesToFalPrompt String_of_other messages)
  = fixed_system String_of_other messages.
Proof.
  intro H. simpl system_prompt. unfold system_prompt_history_content, filled.
  set (fixed := fixed_system String_of_other messages) in *.
  assert (Hr : (remaining_system_limit fixed <=? 0) = true).
  { apply Z.leb_le. unfold remaining_system_limit, space_occupied_by_fixed_system.
    replace (0 <? len fixed) with true
      by (symmetry; apply Z.ltb_lt; unfold SYSTEM_PROMPT_LIMIT in H; lia).
    lia. }
  rewrite fill_system_blocks, Hr.
  change (trim (join [])) with (@nil code_unit). unfold assemble.
  replace (0 <? len fixed) with true
    by (symmetry; apply Z.ltb_lt; unfold SYSTEM_PROMPT_LIMIT in H; lia).
  reflexivity.
Qed.

(** A content that is [null] or [undefined] counts as the empty text: for
    every message list the result is that of the list with such contents
    replaced by the empty string. *)
Theorem missing_content_is_empty_text (messages : list message) :
  convertMessagesToFalPrompt String_of_other messages
  = convertMessagesToFalPrompt String_of_other (List.map with_text_content messages).
Proof.
  assert (Hstep : forall st m,
             partition_step String_of_other st (with_text_content m)
             = partition_step String_of_other st m).
  { intros st m. unfold with_text_content.
    destruct m as [r c]. destruct c; reflexivity. }
  assert (Hpart : forall l st,
             fold_left (partition_step String_of_other) (List.map with_text_content l) st
             = fold_left (partition_step String_of_other) l st).
  { induction l as [|m l IH]; intro st; simpl; [reflexivity|].
    rewrite Hstep. apply IH. }
  unfold convertMessagesToFalPrompt, system_prompt_history_content, final_prompt,
    filled, fixed_system, partition_messages.
  rewrite !Hpart. reflexivity.
Qed.

End ComposerEdges.

(** The system slot of [sample_long_system] holds the fixed text alone. *)
Lemma crowded_system_text_at_sample :
  SYSTEM_PROMPT_LIMIT - 4 <= len (fixed_system sample_String sample_long_system)
  /\ system_prompt (convertMessagesToFalPrompt sample_String sample_long_system)
     = fixed_system sample_String sample_long_system.
Proof.
  assert (H : SYSTEM_PROMPT_LIMIT - 4
              <= len (fixed_system sample_String sample_long_system))
    by (apply Z.leb_le; vm_compute; reflexivity).
  split; [exact H|].
  exact (crowded_system_text_stands_alone sample_String sample_long_system H).
Defined.

(* ================================================================== *)
(** * Part X. The owner of a model and the key check                   *)
(* ================================================================== *)

Lemma includes_iff (s : jstring) (sep : code_unit) :
  includes s sep = true <-> In sep s.
Proof.
  unfold includes. rewrite existsb_exists. split.
  - intros [c [Hin Hc]]. apply N.eqb_eq in Hc. subst c. exact Hin.
  - intro Hin. exists sep. split; [exact Hin|apply N.eqb_refl].
Qed.

Lemma split_nonempty (sep : code_unit) (s : jstring) : split sep s <> [].
Proof.
  destruct s as [|c s]; simpl; [discriminate|].
  destruct (N.eqb c sep); [discriminate|].
  destruct (split sep s); discriminate.
Qed.

(** A text without the separator is one piece. *)
Lemma split_whole (sep : code_unit) (s : jstring) :
  ~ In sep s -> split sep s = [s].
Proof.
  induction s as [|c s IH]; intro H; simpl; [reflexivity|].
  destruct (N.eqb c sep) eqn:E.
  - apply N.eqb_eq in E. exfalso. apply H. left. exact E.
  - rewrite IH; [reflexivity|]. intro Hin. apply H. right. exact Hin.
Qed.

(** The first piece ends at the first separator. *)
Lemma split_first (sep : code_unit) (a rest : jstring) :
  ~ In sep a -> split sep (a ++ sep :: rest) = a :: split sep rest.
Proof.
  induction a as [|c a IH]; intro H; simpl.
  - rewrite N.eqb_refl. reflexivity.
  - destruct (N.eqb c sep) eqn:E.
    + apply N.eqb_eq in E. exfalso. apply H. left. exact E.
    + rewrite IH; [reflexivity|]. intro Hin. apply H. right. exact Hin.
Qed.

(** What the first piece of a split is. *)
Lemma split_cons_inv (sep : code_unit) (s p : jstring) (ps : list jstring) :
  split sep s = p :: ps ->
  ~ In sep p
  /\ ((ps = [] /\ s = p)
      \/ exists rest, s = p ++ sep :: rest /\ split sep rest = ps).
Proof.
  revert p ps. induction s as [|c s IH]; intros p ps H; simpl in H.
  - injection H as <- <-. split; [intros []|]. left. auto.
  - destruct (N.eqb c sep) eqn:E.
    + apply N.eqb_eq in E. subst c. injection H as <- <-.
      split; [intros []|]. right. exists s. auto.
    + destruct (split sep s) as [|q qs] eqn:Es.
      * exfalso. exact (split_nonempty sep s Es).
      * injection H as <- <-. destruct (IH q qs eq_refl) as [Hq Hcases].
        apply N.eqb_neq in E. split.
        -- intros [Hc|Hin]; [congruence|contradiction].
        -- destruct Hcases as [[-> ->]|[rest [-> Hrest]]].
           ++ left. auto.
           ++ right. exists rest. auto.
Qed.

(** The owner of a model id: for every owner without a slash,
    [getOwner (owner/rest)] is [owner], whatever follows the first slash; an
    id without a slash (the empty text too) is owned by [fal-ai]; and an owner
    never contains a slash. *)
Theorem getOwner_is_text_before_first_slash :
  (forall owner rest : jstring,
     ~ In SLASH owner -> getOwner (owner ++ SLASH :: rest) = owner)
  /\ (forall modelId : jstring, ~ In SLASH modelId -> getOwner modelId = lit "fal-ai")
  /\ (forall modelId : jstring, ~ In SLASH (getOwner modelId)).
Proof.
  split; [|split].
  - intros owner rest H. unfold getOwner.
    replace (includes (owner ++ SLASH :: rest) SLASH) with true
      by (symmetry; apply includes_iff, in_or_app; right; left; reflexivity).
    replace (str_eqb (owner ++ SLASH :: rest) []) with false
      by (destruct owner; reflexivity).
    simpl andb. cbv iota. rewrite split_first by exact H. reflexivity.
  - intros modelId H. unfold getOwner.
    replace (includes modelId SLASH) with false; [rewrite andb_false_r; reflexivity|].
    symmetry. destruct (includes modelId SLASH) eqn:E; [|reflexivity].
    apply includes_iff in E. contradiction.
  - intros modelId. unfold getOwner.
    destruct (negb (str_eqb modelId []) && includes modelId SLASH).
    + destruct (split SLASH modelId) as [|p ps] eqn:E.
      * intros [].
      * simpl. exact (proj1 (split_cons_inv SLASH modelId p ps E)).
    + intro H. apply includes_iff in H. vm_compute in H. discriminate.
Qed.

Section KeyCheck.

Variable toLowerCase_beyond_ascii : jstring -> jstring.
Variable API_KEY : jstring.

(** A header of a scheme that lower-cases to [bearer], one space and the key
    is accepted, when neither the scheme nor the key holds a space. *)
Lemma validateApiKey_accepts (scheme : jstring) :
  ~ In SPACE scheme -> ~ In SPACE API_KEY ->
  toLowerCase toLowerCase_beyond_ascii scheme = lit "bearer" ->
  validateApiKey toLowerCase_beyond_ascii API_KEY (Some (scheme ++ SPACE :: API_KEY))
  = true.
Proof.
  intros Hs Hk Hl. unfold validateApiKey.
  replace (str_eqb (scheme ++ SPACE :: API_KEY) []) with false
    by (destruct scheme; reflexivity).
  rewrite split_first by exact Hs. rewrite split_whole by exact Hk.
  rewrite Hl.
  replace (str_eqb (lit "bearer") (lit "bearer")) with true by reflexivity.
  simpl negb. cbv iota. apply str_eqb_eq. reflexivity.
Qed.

(** No other header is accepted. *)
Lemma validateApiKey_inv (authHeader : option jstring) :
  validateApiKey toLowerCase_beyond_ascii API_KEY authHeader = true ->
  exists scheme,
    authHeader = Some (scheme ++ SPACE :: API_KEY)
    /\ ~ In SPACE scheme /\ ~ In SPACE API_KEY
    /\ toLowerCase toLowerCase_beyond_ascii scheme = lit "bearer".
Proof.
  unfold validateApiKey. destruct authHeader as [h|]; [|discriminate].
  destruct (str_eqb h []); [discriminate|].
  destruct (split SPACE h) as [|scheme [|providedKey [|third more]]] eqn:E;
    try discriminate.
  destruct (str_eqb (toLowerCase toLowerCase_beyond_ascii scheme) (lit "bearer"))
    eqn:Hl; [|discriminate].
  simpl negb. cbv iota. intro Hk.
  apply str_eqb_eq in Hl. apply str_eqb_eq in Hk. subst providedKey.
  destruct (split_cons_inv SPACE h scheme [API_KEY] E)
    as [Hs [[Hnil _]|[rest [Hh Hrest]]]]; [discriminate|].
  destruct (split_cons_inv SPACE rest API_KEY [] Hrest)
    as [Hkey [[_ Hr]|[rest' [_ Hrest']]]].
  - subst rest. exists scheme. subst h. auto.
  - exfalso. exact (split_nonempty SPACE rest' Hrest').
Qed.

(** The key check accepts exactly the headers made of a scheme that
    lower-cases to [bearer], one space and the key, where neither the scheme
    nor the key holds a space: a missing or empty header, a second space, a
    wrong scheme or a wrong key are all refused. *)
Theorem validateApiKey_iff (authHeader : option jstring) :
  validateApiKey toLowerCase_beyond_ascii API_KEY authHeader = true
  <-> exists scheme,
        authHeader = Some (scheme ++ SPACE :: API_KEY)
        /\ ~ In SPACE scheme /\ ~ In SPACE API_KEY
        /\ toLowerCase toLowerCase_beyond_ascii scheme = lit "bearer".
Proof.
  split; [apply validateApiKey_inv|].
  intros [scheme [-> [Hs [Hk Hl]]]]. apply validateApiKey_accepts; assumption.
Qed.

(** A key that holds a space locks every caller out: no header is accepted. *)
Theorem key_with_space_is_never_accepted (authHeader : option jstring) :
  In SPACE API_KEY ->
  validateApiKey toLowerCase_beyond_ascii API_KEY authHeader = false.
Proof.
  intro Hin.
  destruct (validateApiKey toLowerCase_beyond_ascii API_KEY authHeader) eqn:E;
    [|reflexivity].
  destruct (validateApiKey_inv authHeader E) as [scheme [_ [_ [Hk _]]]].
  contradiction.
Qed.

(** The scheme is matched without regard to the case of its letters: for a
    key without a space, a scheme of code units below 128 that is [bearer] up
    to case, one space and the key make an accepted header. *)
Theorem bearer_scheme_in_any_case (scheme : jstring) :
  ~ In SPACE API_KEY ->
  forallb (fun c => (c <? 128)%N) scheme = true ->
  List.map lower_ascii scheme = lit "bearer" ->
  validateApiKey toLowerCase_beyond_ascii API_KEY (Some (scheme ++ SPACE :: API_KEY))
  = true.
Proof.
  intros Hk Hascii Hlow. apply validateApiKey_accepts.
  - intro Hin. apply (in_map lower_ascii) in Hin. rewrite Hlow in Hin.
    apply includes_iff in Hin. vm_compute in Hin. discriminate.
  - exact Hk.
  - unfold toLowerCase. rewrite Hascii. exact Hlow.
Qed.

End KeyCheck.

(** The owner of [openai/gpt-4o/extra] is [openai]. *)
Lemma getOwner_at_sample :
  ~ In SLASH (lit "openai")
  /\ getOwner (lit "openai" ++ SLASH :: lit "gpt-4o/extra") = lit "openai".
Proof.
  assert (H : ~ In SLASH (lit "openai"))
    by (intro H; apply includes_iff in H; vm_compute in H; discriminate).
  split; [exact H|].
  exact (proj1 getOwner_is_text_before_first_slash (lit "openai") (lit "gpt-4o/extra") H).
Defined.

(** With the key [my key], the header [Bearer my key] is refused. *)
Lemma key_with_space_at_sample :
  In SPACE (lit "my key")
  /\ validateApiKey sample_toLowerCase (lit "my key") (Some (lit "Bearer my key"))
     = false.
Proof.
  assert (H : In SPACE (lit "my key")) by (apply includes_iff; reflexivity).
  split; [exact H|].
  exact (key_with_space_is_never_accepted sample_toLowerCase (lit "my key")
           (Some (lit "Bearer my key")) H).
Defined.

(** With the key [secret], the header [BeArEr secret] is accepted. *)
Lemma bearer_scheme_at_sample :
  ~ In SPACE sample_key
  /\ forallb (fun c => (c <? 128)%N) (lit "BeArEr") = true
  /\ List.map lower_ascii (lit "BeArEr") = lit "bearer"
  /\ validateApiKey sample_toLowerCase sample_key
       (Some (lit "BeArEr" ++ SPACE :: sample_key)) = true.
Proof.
  assert (H1 : ~ In SPACE sample_key)
    by (intro H; apply includes_iff in H; vm_compute in H; discriminate).
  assert (H2 : forallb (fun c => (c <? 128)%N) (lit "BeArEr") = true) by reflexivity.
  assert (H3 : List.map lower_ascii (lit "BeArEr") = lit "bearer") by reflexivity.
  split; [exact H1|]. split; [exact H2|]. split; [exact H3|].
  exact (bearer_scheme_in_any_case sample_toLowerCase sample_key (lit "BeArEr") H1 H2 H3).
Defined.

(* ================================================================== *)
(** * Part XI. The routes of handler                                   *)
(* ================================================================== *)

Lemma all_messages_none (entries : list (option message)) :
  In None entries -> all_messages entries = None.
Proof.
  induction entries as [|e entries IH]; intro H; [contradiction|].
  destruct H as [->|H]; [reflexivity|].
  simpl. destruct e; [|reflexivity]. rewrite (IH H). reflexivity.
Qed.

Section Routes.

Variable String_of_other : jsval -> jstring.
Variable String_throws : jsval -> bool.
Variable JSON_stringify : jsval -> jstring.
Variable toLowerCase_beyond_ascii : jstring -> jstring.
Variable API_KEY : jstring.

(** The loop keeps the same state whether or not one keeps how it was left,
    and it is left by [break] exactly when an event carries an error payload. *)
Lemma for_await_control_agrees (model : jsval) (events : list jsval)
      (st : stream_state) :
  fst (for_await_control JSON_stringify model events st)
    = fst (for_await JSON_stringify model events st)
  /\ snd (for_await_control JSON_stringify model events st)
     = if has_error_event events then Break else Next.
Proof.
  revert st. induction events as [|e events IH]; intro st; simpl; [auto|].
  destruct (truthy (errorInfo_of e)) eqn:Herr.
  - rewrite (on_event_error JSON_stringify model e st Herr). simpl. auto.
  - rewrite (on_event_no_error JSON_stringify model e st Herr). simpl. apply IH.
Qed.

(** A stream whose iterator ends by itself is written as the loop of the
    streaming branch writes it. *)
Lemma stream_written_natural (model : jsval) (events : list jsval) :
  stream_written JSON_stringify model (events, EndOfStream)
  = List.map Frame (stream_frames JSON_stringify model events).
Proof.
  unfold stream_written, stream_frames.
  pose proof (for_await_control_agrees model events
                {| previousOutput := []; written := [] |}) as [Hst _].
  destruct (for_await_control JSON_stringify model events
              {| previousOutput := []; written := [] |}) as [st how].
  simpl in Hst. rewrite <- Hst, map_app.
  destruct how; reflexivity.
Qed.

(** Whatever the upstream does, the done frame is written, last and once. *)
Lemma stream_written_done (model : jsval) (upstream : list jsval * stream_end) :
  exists frames,
    stream_written JSON_stringify model upstream = frames ++ [Frame DoneFrame]
    /\ forallb (fun f => negb (is_done f)) frames = true.
Proof.
  destruct upstream as [events ending]. unfold stream_written.
  pose proof (for_await_control_agrees model events
                {| previousOutput := []; written := [] |}) as [Hst _].
  destruct (for_await_shape JSON_stringify model events
              {| previousOutput := []; written := [] |}) as [chunks [Hc Hw]].
  destruct (for_await_control JSON_stringify model events
              {| previousOutput := []; written := [] |}) as [st how].
  simpl in Hst. rewrite <- Hst in Hw. simpl in Hw.
  assert (Hclean : forallb (fun f => negb (is_done f)) (List.map Frame (written st))
                   = true).
  { rewrite forallb_forall. intros f Hf. apply in_map_iff in Hf.
    destruct Hf as [x [<- Hx]].
    assert (Hcontent : forall y, In y chunks -> is_done (Frame y) = false).
    { intros y Hy. rewrite forallb_forall in Hc. specialize (Hc y Hy).
      destruct y; simpl in *; congruence. }
    destruct Hw as [Hw|[content Hw]]; rewrite Hw in Hx.
    - rewrite (Hcontent x Hx). reflexivity.
    - apply in_app_or in Hx. destruct Hx as [Hx|[<-|[]]].
      + rewrite (Hcontent x Hx). reflexivity.
      + reflexivity. }
  destruct how, ending.
  - exists (List.map Frame (written st)). auto.
  - exists (List.map Frame (written st) ++ [ProxyErrorFrame details]).
    rewrite <- app_assoc. split; [reflexivity|].
    rewrite forallb_app, Hclean. reflexivity.
  - exists (List.map Frame (written st)). auto.
  - exists (List.map Frame (written st)). auto.
Qed.


(** The streaming response ends with the done frame and has no other: for
    every upstream, whether its iterator ends by itself or throws, what is
    written (the writer not failing) is frames other than the done frame and
    then the done frame; and when the iterator ends by itself it is the
    frames of the loop. *)
Theorem stream_response_ends_with_done (model : jsval)
        (upstream : list jsval * stream_end) :
  (exists frames,
     stream_written JSON_stringify model upstream = frames ++ [Frame DoneFrame]
     /\ forallb (fun f => negb (is_done f)) frames = true)
  /\ stream_written JSON_stringify model (fst upstream, EndOfStream)
     = List.map Frame (stream_frames JSON_stringify model (fst upstream)).
Proof.
  split; [apply stream_written_done|apply stream_written_natural].
Qed.

(** An exception of the backend's iterator: when no event carried an error
    payload, the frames of the events are followed by one proxy error frame
    with the details and by the done frame; when an event did, the loop was
    left before the exception and the response is that of the stream ending
    by itself. *)
Theorem stream_exception_is_reported (model : jsval) (events : list jsval)
        (details : jstring) :
  stream_written JSON_stringify model (events, Throws details)
  = if has_error_event events
    then List.map Frame (stream_frames JSON_stringify model events)
    else List.map Frame
           (written (fst (for_await JSON_stringify model events
                            {| previousOutput := []; written := [] |})))
         ++ [ProxyErrorFrame details; Frame DoneFrame].
Proof.
  unfold stream_written, stream_frames.
  pose proof (for_await_control_agrees model events
                {| previousOutput := []; written := [] |}) as [Hst Hhow].
  destruct (for_await_control JSON_stringify model events
              {| previousOutput := []; written := [] |}) as [st how].
  simpl in Hst, Hhow. rewrite <- Hst. subst how.
  destruct (has_error_event events); [|reflexivity].
  rewrite map_app. reflexivity.
Qed.

(** A value whose conversion throws is an object, and an object is truthy. *)
Lemma truthy_and_throws (v : jsval) :
  truthy v && conversion_throws String_throws v = conversion_throws String_throws v.
Proof. destruct v; simpl; rewrite ?andb_false_r; reflexivity. Qed.

(** The response to a backend result is 200 exactly when the result is
    neither [null] nor [undefined], carries no truthy [error] and has a
    [requestId] that converts to a text (or none); it is 500 otherwise, and
    the content of a 200 is the result's [output] when that is truthy and the
    empty string when it is not. *)
Theorem completion_response_status (model result : jsval) :
  let r := completion_response String_throws JSON_stringify model result in
  (status r = 200 \/ status r = 500)
  /\ (status r = 200
      <-> result <> JNull /\ result <> JUndefined
          /\ truthy (get result (lit "error")) = false
          /\ conversion_throws String_throws (get result (lit "requestId")) = false)
  /\ (status r = 200 ->
      exists requestId fal_reasoning,
        body r = CompletionBody requestId model
                   (if truthy (get result (lit "output"))
                    then get result (lit "output") else JString [])
                   fal_reasoning).
Proof.
  cbv zeta. unfold completion_response. rewrite truthy_and_throws.
  destruct (truthy result && truthy (get result (lit "error"))) eqn:E.
  - cbn [status]. split; [right; reflexivity|]. split; [|discriminate].
    split; [discriminate|]. intros [_ [_ [H _]]].
    apply andb_true_iff in E. destruct E as [_ E]. congruence.
  - assert (Herr : truthy (get result (lit "error")) = false).
    { destruct result; try reflexivity. exact E. }
    destruct (conversion_throws String_throws (get result (lit "requestId")))
      eqn:Ht.
    + assert (H500 : status (match result with
                             | JUndefined | JNull => internal_error
                             | _ => internal_error
                             end) = 500) by (destruct result; reflexivity).
      split; [right; exact H500|]. split.
      * split; [rewrite H500; discriminate|].
        intros [_ [_ [_ H]]]. discriminate.
      * rewrite H500. discriminate.
    + destruct result; cbn [status internal_error];
        (split; [auto|]); (split; [|try discriminate]);
        try (split; [discriminate|intros [H1 [H2 _]]; congruence]);
        try (split; [intros _; repeat split; try discriminate; exact Herr
                    |reflexivity]);
        intros _; eexists; eexists; reflexivity.
Qed.

(** A list without unsupported roles is converted whenever the whole list is,
    and to the same result: for every message list on which the composer
    returns, the messages whose role is none of [system], [user] and
    [assistant] are dropped. *)
Theorem unsupported_roles_are_dropped (messages : list message) (result : composed) :
  convertMessagesToFalPrompt_or_throw String_of_other String_throws messages
    = Some result ->
  convertMessagesToFalPrompt_or_throw String_of_other String_throws
    (filter has_supported_role messages) = Some result.
Proof.
  unfold convertMessagesToFalPrompt_or_throw.
  destruct (composer_throws String_throws messages) eqn:Hthrows; [discriminate|].
  intro H. injection H as <-.
  replace (composer_throws String_throws (filter has_supported_role messages))
    with false.
  - f_equal.
    unfold convertMessagesToFalPrompt, system_prompt_history_content, final_prompt,
      filled, fixed_system.
    rewrite partition_ignores_other_roles. reflexivity.
  - symmetry. unfold composer_throws in *.
    destruct (existsb (message_throws String_throws)
                (filter has_supported_role messages)) eqn:E; [|reflexivity].
    apply existsb_exists in E. destruct E as [m [Hin Hm]].
    apply filter_In in Hin. destruct Hin as [Hin _].
    assert (Hex : existsb (message_throws String_throws) messages = true)
      by (apply existsb_exists; exists m; auto).
    congruence.
Qed.

Section Backend.

Variable subscribe : fal_input -> option jsval.
Variable stream : fal_input -> list jsval * stream_end.

(** A request for the chat completions path with POST and an accepted key
    is answered by the chat completions route. *)
Lemma handler_chat (req : request) :
  pathname req = lit "/v1/chat/completions" ->
  method req = lit "POST" ->
  validateApiKey toLowerCase_beyond_ascii API_KEY (authorization req) = true ->
  handler String_of_other String_throws JSON_stringify toLowerCase_beyond_ascii
          API_KEY
          subscribe stream req
  = chat_completions String_of_other String_throws JSON_stringify subscribe stream (json_body req).
Proof.
  intros Hp Hm Hk. unfold handler. cbv zeta. rewrite Hp, Hm, Hk. reflexivity.
Qed.

(** The two guarded paths need the key whatever the method: a request for
    [/v1/models] or [/v1/chat/completions] whose header is not accepted is
    answered 401, a CORS preflight ([OPTIONS]) like any other. *)
Theorem guarded_paths_need_the_key (req : request) :
  guarded_path req ->
  validateApiKey toLowerCase_beyond_ascii API_KEY (authorization req) = false ->
  handler String_of_other String_throws JSON_stringify toLowerCase_beyond_ascii
          API_KEY
          subscribe stream req
  = unauthorized.
Proof.
  intros Hp Hk. unfold handler. cbv zeta. rewrite Hk.
  destruct Hp as [Hp|Hp]; rewrite Hp; reflexivity.
Qed.

(** The chat completions route answers 400 exactly when [model] and [stream]
    convert to texts (line 250 comes first) and [model] is falsy or [messages]
    is not a non-empty array, and then with the response of line 258. *)
Theorem chat_validation (requestBody : chat_body) :
  let r := chat_completions String_of_other String_throws JSON_stringify subscribe stream
             (Some requestBody) in
  (status r = 400
   <-> conversion_throws String_throws (body_model requestBody) = false
       /\ conversion_throws String_throws (body_stream requestBody) = false
       /\ (truthy (body_model requestBody) = false
           \/ (forall entries, body_messages requestBody <> AnArray entries)
           \/ body_messages requestBody = AnArray []))
  /\ (status r = 400 -> r = bad_request).
Proof.
  cbv zeta. unfold chat_completions.
  destruct (conversion_throws String_throws (body_model requestBody)
            || conversion_throws String_throws (body_stream requestBody)) eqn:Hc.
  - split; [|discriminate]. split; [discriminate|].
    intros [H1 [H2 _]]. rewrite H1, H2 in Hc. discriminate.
  - apply orb_false_iff in Hc. destruct Hc as [Hc1 Hc2].
    destruct (body_messages requestBody) as [v|entries] eqn:Hm.
    + split; [|reflexivity]. split; [|reflexivity].
      intros _. split; [exact Hc1|]. split; [exact Hc2|].
      right. left. intros entries. discriminate.
    + destruct (truthy (body_model requestBody)) eqn:Ht; cbn [negb orb].
      * destruct entries as [|e entries]; cbn [List.length Nat.eqb].
        -- split; [|reflexivity]. split; [auto|reflexivity].
        -- assert (Hno : forall r : response,
                     status r <> 400 ->
                     (status r = 400 <->
                      conversion_throws String_throws (body_model requestBody) = false
                      /\ conversion_throws String_throws (body_stream requestBody)
                         = false
                      /\ (true = false
                          \/ (forall entries0,
                                AnArray (e :: entries) <> AnArray entries0)
                          \/ AnArray (e :: entries) = AnArray []))
                     /\ (status r = 400 -> r = bad_request)).
           { intros r Hr. split; [|intro; contradiction].
             split; [intro; contradiction|].
             intros [_ [_ [H|[H|H]]]]; [discriminate| |discriminate].
             exfalso. exact (H (e :: entries) eq_refl). }
           apply Hno.
           destruct (all_messages (e :: entries)); [|discriminate].
           destruct (convertMessagesToFalPrompt_or_throw _ _ _); [|discriminate].
           destruct (negb (truthy (body_stream requestBody))); [|discriminate].
           destruct (subscribe _) as [result|]; [|discriminate].
           destruct (completion_response_status (body_model requestBody) result)
             as [[H|H] _]; rewrite H; discriminate.
      * split; [|reflexivity]. split; [auto|reflexivity].
Qed.

(** An array of messages with an entry that is [null] or [undefined] is not
    refused as invalid: reading the entry's content throws, and the request is
    answered 500. *)
Theorem null_message_is_an_internal_error (requestBody : chat_body)
        (entries : list (option message)) :
  truthy (body_model requestBody) = true ->
  body_messages requestBody = AnArray entries ->
  In None entries ->
  chat_completions String_of_other String_throws JSON_stringify subscribe stream (Some requestBody)
  = internal_error.
Proof.
  intros Hmodel Hm Hnone. unfold chat_completions.
  destruct (conversion_throws String_throws (body_model requestBody)
            || conversion_throws String_throws (body_stream requestBody));
    [reflexivity|].
  rewrite Hm, Hmodel.
  destruct entries as [|e entries]; [contradiction|].
  cbn [negb orb List.length Nat.eqb]. cbv iota.
  rewrite (all_messages_none (e :: entries) Hnone). reflexivity.
Qed.

(** A valid streaming request is answered 200 with the headers of an event
    stream whatever the backend does, once nothing throws before the backend
    is reached ([model], [stream] and the messages all have their
    conversions): the backend's failures are only reported inside the stream,
    which still ends with the done frame, and [fal.subscribe] plays no
    part. *)
Theorem streaming_request_is_answered_200 (req : request) (requestBody : chat_body)
        (entries : list (option message)) (messages : list message) :
  pathname req = lit "/v1/chat/completions" ->
  method req = lit "POST" ->
  validateApiKey toLowerCase_beyond_ascii API_KEY (authorization req) = true ->
  json_body req = Some requestBody ->
  conversion_throws String_throws (body_model requestBody) = false ->
  conversion_throws String_throws (body_stream requestBody) = false ->
  truthy (body_model requestBody) = true ->
  body_messages requestBody = AnArray entries ->
  entries <> [] ->
  all_messages entries = Some messages ->
  composer_throws String_throws messages = false ->
  truthy (body_stream requestBody) = true ->
  let input := falInput_of (body_model requestBody) (body_reasoning requestBody)
                 (convertMessagesToFalPrompt String_of_other messages) in
  handler String_of_other String_throws JSON_stringify toLowerCase_beyond_ascii
          API_KEY subscribe stream req
  = {| status := 200; headers := stream_headers;
       body := StreamBody (stream_written JSON_stringify (body_model requestBody)
                             (stream input)) |}
  /\ exists frames,
       stream_written JSON_stringify (body_model requestBody) (stream input)
       = frames ++ [Frame DoneFrame]
       /\ forallb (fun f => negb (is_done f)) frames = true.
Proof.
  intros Hp Hm Hk Hb Hc1 Hc2 Hmodel Hmsgs Hne Hall Hcomp Hstream. cbv zeta.
  split; [|apply stream_written_done].
  rewrite (handler_chat req Hp Hm Hk), Hb. unfold chat_completions.
  rewrite Hc1, Hc2, Hmsgs, Hmodel. destruct entries as [|e entries]; [contradiction|].
  cbn [negb orb List.length Nat.eqb]. cbv iota.
  unfold convertMessagesToFalPrompt_or_throw. rewrite Hall, Hcomp, Hstream.
  reflexivity.
Qed.

End Backend.

(** Without an accepted key the backend plays no part: for every request whose
    header is not accepted, the response is the same whatever
    [fal.subscribe] and [fal.stream] would do. *)
Theorem no_key_no_backend
        (subscribe1 subscribe2 : fal_input -> option jsval)
        (stream1 stream2 : fal_input -> list jsval * stream_end)
        (req : request) :
  validateApiKey toLowerCase_beyond_ascii API_KEY (authorization req) = false ->
  handler String_of_other String_throws JSON_stringify toLowerCase_beyond_ascii
          API_KEY
          subscribe1 stream1 req
  = handler String_of_other String_throws JSON_stringify toLowerCase_beyond_ascii
          API_KEY
            subscribe2 stream2 req.
Proof.
  intro Hk. unfold handler. cbv zeta. rewrite Hk. simpl negb.
  destruct (str_eqb (pathname req) (lit "/") && str_eqb (method req) (lit "GET"));
    [reflexivity|].
  destruct (str_eqb (pathname req) (lit "/v1/models")) eqn:H1;
    [reflexivity|].
  destruct (str_eqb (pathname req) (lit "/v1/chat/completions")) eqn:H2;
    reflexivity.
Qed.

(** What is sent to the backend: for every model, reasoning value and
    message list, the input's prompt is at most [PROMPT_LIMIT - 2] long, its
    reasoning flag is the truthiness of the request's, and it has a
    [system_prompt] exactly when the composed one is non-empty, which is then
    trimmed and at most [SYSTEM_PROMPT_LIMIT + 23] long. *)
Theorem backend_input_bounds (model reasoning : jsval) (messages : list message) :
  let converted := convertMessagesToFalPrompt String_of_other messages in
  let input := falInput_of model reasoning converted in
  input_model input = model
  /\ input_reasoning input = truthy reasoning
  /\ input_prompt input = prompt converted
  /\ len (input_prompt input) <= PROMPT_LIMIT - 2
  /\ match input_system_prompt input with
     | Some s => s = system_prompt converted /\ 0 < len s
                 /\ len s <= SYSTEM_PROMPT_LIMIT + 23 /\ trim s = s
     | None => system_prompt converted = []
     end.
Proof.
  cbv zeta. unfold falInput_of. cbn [input_model input_reasoning input_prompt
                                      input_system_prompt].
  split; [reflexivity|]. split; [reflexivity|]. split; [reflexivity|].
  split; [apply len_prompt_sharp|].
  destruct (str_eqb (system_prompt (convertMessagesToFalPrompt String_of_other messages)) [])
    eqn:E; cbn [negb].
  - apply str_eqb_nil in E. exact E.
  - split; [reflexivity|]. split; [|split].
    + destruct (system_prompt (convertMessagesToFalPrompt String_of_other messages));
        [discriminate|]. unfold len. simpl. lia.
    + apply len_system_prompt_sharp.
    + apply system_prompt_trimmed.
Qed.

End Routes.

(** A preflight for the chat completions path that carries no key is
    answered 401. *)
Lemma preflight_without_key_at_sample :
  let req := {| method := lit "OPTIONS";
                pathname := lit "/v1/chat/completions";
                authorization := None;
                json_body := None |} in
  guarded_path req
  /\ validateApiKey sample_toLowerCase sample_key (authorization req) = false
  /\ handler sample_String sample_String_throws sample_stringify sample_toLowerCase sample_key
             sample_subscribe sample_backend_stream req
     = unauthorized.
Proof.
  cbv zeta.
  assert (H1 : guarded_path {| method := lit "OPTIONS";
                               pathname := lit "/v1/chat/completions";
                               authorization := None;
                               json_body := None |})
    by (right; reflexivity).
  split; [exact H1|]. split; [reflexivity|].
  exact (guarded_paths_need_the_key sample_String sample_String_throws sample_stringify sample_toLowerCase
           sample_key sample_subscribe sample_backend_stream
           {| method := lit "OPTIONS";
              pathname := lit "/v1/chat/completions";
              authorization := None;
              json_body := None |} H1 eq_refl).
Defined.

(** A body whose [messages] is the empty array is answered 400. *)
Lemma chat_validation_at_sample :
  let requestBody := {| body_model := JString (lit "openai/gpt-4o");
                        body_messages := AnArray [];
                        body_stream := JUndefined;
                        body_reasoning := JUndefined |} in
  status (chat_completions sample_String sample_String_throws sample_stringify sample_subscribe
            sample_backend_stream (Some requestBody)) = 400
  /\ chat_completions sample_String sample_String_throws sample_stringify sample_subscribe
       sample_backend_stream (Some requestBody) = bad_request.
Proof.
  cbv zeta.
  assert (H : status (chat_completions sample_String sample_String_throws sample_stringify sample_subscribe
                        sample_backend_stream
                        (Some {| body_model := JString (lit "openai/gpt-4o");
                                 body_messages := AnArray [];
                                 body_stream := JUndefined;
                                 body_reasoning := JUndefined |})) = 400)
    by reflexivity.
  split; [exact H|].
  exact (proj2 (chat_validation sample_String sample_String_throws sample_stringify sample_subscribe
                  sample_backend_stream _) H).
Defined.

(** An array of one message and one [null] is answered 500. *)
Lemma null_message_at_sample :
  let entries := [Some (chat "user" (lit "Hi")); None] in
  let requestBody := {| body_model := JString (lit "openai/gpt-4o");
                        body_messages := AnArray entries;
                        body_stream := JUndefined;
                        body_reasoning := JUndefined |} in
  truthy (body_model requestBody) = true
  /\ body_messages requestBody = AnArray entries
  /\ In None entries
  /\ handler sample_String sample_String_throws sample_stringify sample_toLowerCase sample_key
       sample_subscribe sample_backend_stream (sample_request (Some requestBody))
     = internal_error.
Proof.
  cbv zeta.
  assert (H3 : In None [Some (chat "user" (lit "Hi")); None])
    by (right; left; reflexivity).
  split; [reflexivity|]. split; [reflexivity|]. split; [exact H3|].
  rewrite handler_chat by reflexivity.
  exact (null_message_is_an_internal_error sample_String sample_String_throws sample_stringify
           sample_subscribe sample_backend_stream
           {| body_model := JString (lit "openai/gpt-4o");
              body_messages := AnArray [Some (chat "user" (lit "Hi")); None];
              body_stream := JUndefined;
              body_reasoning := JUndefined |}
           [Some (chat "user" (lit "Hi")); None] eq_refl eq_refl H3).
Defined.

(** A chat completions request with a wrong key is answered alike by a
    backend that answers and by one that throws. *)
Lemma no_key_no_backend_at_sample :
  let req := {| method := lit "POST";
                pathname := lit "/v1/chat/completions";
                authorization := Some (lit "Bearer wrong");
                json_body := None |} in
  validateApiKey sample_toLowerCase sample_key (authorization req) = false
  /\ handler sample_String sample_String_throws sample_stringify sample_toLowerCase sample_key
       sample_subscribe sample_backend_stream req
     = handler sample_String sample_String_throws sample_stringify sample_toLowerCase sample_key
         (fun _ => None) (fun _ => ([], Throws (lit "down"))) req.
Proof.
  cbv zeta. split; [reflexivity|].
  exact (no_key_no_backend sample_String sample_String_throws sample_stringify sample_toLowerCase sample_key
           sample_subscribe (fun _ => None)
           sample_backend_stream (fun _ => ([], Throws (lit "down")))
           {| method := lit "POST";
              pathname := lit "/v1/chat/completions";
              authorization := Some (lit "Bearer wrong");
              json_body := None |} eq_refl).
Defined.

(** A result with an output and no error is answered 200 with that output. *)
Lemma completion_response_at_sample :
  let result := JObject [(lit "output", JString (lit "Hello"))] in
  status (completion_response sample_String_throws sample_stringify (JString (lit "openai/gpt-4o")) result)
    = 200
  /\ exists requestId fal_reasoning,
       body (completion_response sample_String_throws sample_stringify (JString (lit "openai/gpt-4o")) result)
       = CompletionBody requestId (JString (lit "openai/gpt-4o"))
           (JString (lit "Hello")) fal_reasoning.
Proof.
  cbv zeta.
  assert (H : status (completion_response sample_String_throws sample_stringify
                        (JString (lit "openai/gpt-4o"))
                        (JObject [(lit "output", JString (lit "Hello"))])) = 200)
    by reflexivity.
  split; [exact H|].
  exact (proj2 (proj2 (completion_response_status sample_String_throws sample_stringify
                         (JString (lit "openai/gpt-4o"))
                         (JObject [(lit "output", JString (lit "Hello"))]))) H).
Defined.

(** A streaming request whose backend throws at once is answered 200, with
    the proxy error frame and the done frame. *)
Lemma streaming_request_at_sample :
  let requestBody := {| body_model := JString (lit "openai/gpt-4o");
                        body_messages := AnArray [Some (chat "user" (lit "Hi"))];
                        body_stream := JBool true;
                        body_reasoning := JUndefined |} in
  let req := sample_request (Some requestBody) in
  validateApiKey sample_toLowerCase sample_key (authorization req) = true
  /\ handler sample_String sample_String_throws sample_stringify sample_toLowerCase sample_key
       sample_subscribe (fun _ => ([], Throws (lit "down"))) req
     = {| status := 200; headers := stream_headers;
          body := StreamBody [ProxyErrorFrame (lit "down"); Frame DoneFrame] |}.
Proof.
  cbv zeta. split; [reflexivity|].
  exact (proj1 (streaming_request_is_answered_200 sample_String sample_String_throws sample_stringify
                  sample_toLowerCase sample_key sample_subscribe
                  (fun _ => ([], Throws (lit "down")))
                  (sample_request
                     (Some {| body_model := JString (lit "openai/gpt-4o");
                              body_messages := AnArray [Some (chat "user" (lit "Hi"))];
                              body_stream := JBool true;
                              body_reasoning := JUndefined |}))
                  {| body_model := JString (lit "openai/gpt-4o");
                     body_messages := AnArray [Some (chat "user" (lit "Hi"))];
                     body_stream := JBool true;
                     body_reasoning := JUndefined |}
                  [Some (chat "user" (lit "Hi"))] [chat "user" (lit "Hi")]
                  eq_refl eq_refl eq_refl eq_refl eq_refl eq_refl eq_refl eq_refl
                  ltac:(discriminate) eq_refl eq_refl eq_refl)).
Defined.

(** A [tool] message between two turns is dropped. *)
Lemma unsupported_roles_at_sample :
  let messages := [chat "user" (lit "Hi"); chat "tool" (lit "42");
                   chat "assistant" (lit "Hello")] in
  let result := {| system_prompt := [];
                   prompt := lit "Human: Hi" ++ [LF; LF] ++ lit "Assistant: Hello" |} in
  convertMessagesToFalPrompt_or_throw sample_String sample_String_throws messages
    = Some result
  /\ filter has_supported_role messages
     = [chat "user" (lit "Hi"); chat "assistant" (lit "Hello")]
  /\ convertMessagesToFalPrompt_or_throw sample_String sample_String_throws
       (filter has_supported_role messages) = Some result.
Proof.
  cbv zeta.
  assert (H : convertMessagesToFalPrompt_or_throw sample_String sample_String_throws
                [chat "user" (lit "Hi"); chat "tool" (lit "42");
                 chat "assistant" (lit "Hello")]
              = Some {| system_prompt := [];
                        prompt := lit "Human: Hi" ++ [LF; LF]
                                  ++ lit "Assistant: Hello" |})
    by reflexivity.
  split; [exact H|]. split; [reflexivity|].
  exact (unsupported_roles_are_dropped sample_String sample_String_throws _ _ H).
Defined.
